(** * QuantCli: technical indicators and the moving-average-crossover backtest

    A shallow embedding of [main.py] (the [indicator] and [backtest]
    commands) and of [strategies/ma_crossover.py], together with the parts
    of pandas and backtrader those functions call.

    Numbers: a float64 is modelled as an exact rational extended with the
    two infinities and NaN.  Arithmetic is exact (no rounding, no signed
    zero); division by zero and operations on infinities follow IEEE-754,
    which is what numpy applies element-wise to a pandas Series. *)

From Stdlib Require Import String.
From Stdlib Require Import List ZArith QArith Lia Lqa Bool Arith Sorted.
Import ListNotations.

Set Implicit Arguments.

(* ================================================================== *)
(** * Python exceptions as an error monad *)
(* ================================================================== *)

Inductive PyError : Type :=
| ValueError   (* pandas: invalid window / span *)
| KeyError     (* pandas: missing column *)
| IndexError.  (* backtrader: array assignment index out of range *)

Inductive result (A : Type) : Type :=
| Ok (a : A)
| Err (e : PyError).

Arguments Ok {A} a.
Arguments Err {A} e.

Definition bind {A B : Type} (r : result A) (k : A -> result B) : result B :=
  match r with
  | Ok a => k a
  | Err e => Err e
  end.

Declare Scope py_scope.
Delimit Scope py_scope with py.
Notation "x <- r ;; k" := (bind r (fun x => k))
  (at level 61, r at next level, right associativity) : py_scope.

(* ================================================================== *)
(** * float64 values *)
(* ================================================================== *)

Module Float64.

Inductive float64 : Type :=
| Fin (q : Q)
| PInf
| NInf
| NaN.

Definition isnan (x : float64) : bool :=
  match x with NaN => true | _ => false end.

Definition inf_of (c : comparison) : float64 :=
  match c with Gt => PInf | Lt => NInf | Eq => NaN end.

Definition fneg (x : float64) : float64 :=
  match x with
  | Fin q => Fin (- q)
  | PInf => NInf
  | NInf => PInf
  | NaN => NaN
  end.

Definition fadd (x y : float64) : float64 :=
  match x, y with
  | NaN, _ | _, NaN => NaN
  | Fin a, Fin b => Fin (a + b)
  | PInf, NInf | NInf, PInf => NaN
  | PInf, _ | _, PInf => PInf
  | NInf, _ | _, NInf => NInf
  end.

Definition fsub (x y : float64) : float64 := fadd x (fneg y).

Definition fdiv (x y : float64) : float64 :=
  match x, y with
  | NaN, _ | _, NaN => NaN
  | Fin a, Fin b =>
      if Qeq_bool b 0 then inf_of (a ?= 0)%Q else Fin (a / b)
  | Fin _, _ => Fin 0
  | _, Fin b =>
      match (b ?= 0)%Q with
      | Lt => fneg x
      | _ => x
      end
  | _, _ => NaN
  end.

(** [x > y] and [x < y]; any comparison with NaN is False *)
Definition fgt (x y : float64) : bool :=
  match x, y with
  | NaN, _ | _, NaN => false
  | Fin a, Fin b => match (a ?= b)%Q with Gt => true | _ => false end
  | PInf, PInf => false
  | PInf, _ => true
  | _, NInf => match x with NInf => false | _ => true end
  | _, _ => false
  end.

Definition flt (x y : float64) : bool := fgt y x.

End Float64.
Export Float64.

(* ================================================================== *)
(** * pandas: Series, rolling and exponentially weighted means, frames *)
(* ================================================================== *)

Module Pandas.

Definition Series : Type := list float64.

(** Element-wise binary operation on two Series sharing one index. *)
Fixpoint map2 {A B C : Type} (f : A -> B -> C) (l : list A) (m : list B)
  : list C :=
  match l, m with
  | a :: l', b :: m' => f a b :: map2 f l' m'
  | _, _ => []
  end.

(** [s.diff()]: first element NaN, then [s[i] - s[i-1]]. *)
Fixpoint diff_from (prev : float64) (s : Series) : Series :=
  match s with
  | [] => []
  | x :: t => fsub x prev :: diff_from x t
  end.

Definition diff (s : Series) : Series :=
  match s with
  | [] => []
  | x :: t => NaN :: diff_from x t
  end.

(** [s.where(cond, other)]: keep where [cond] holds, else [other]. *)
Definition where_ (s : Series) (cond : list bool) (other : float64) : Series :=
  map2 (fun x (c : bool) => if c then x else other) s cond.

Definition gt_scalar (s : Series) (c : float64) : list bool :=
  map (fun x => fgt x c) s.

Definition lt_scalar (s : Series) (c : float64) : list bool :=
  map (fun x => flt x c) s.

Definition neg (s : Series) : Series := map fneg s.
Definition div (a b : Series) : Series := map2 fdiv a b.
Definition sub (a b : Series) : Series := map2 fsub a b.
Definition radd (c : float64) (s : Series) : Series := map (fadd c) s.
Definition rsub (c : float64) (s : Series) : Series := map (fsub c) s.
Definition rdiv (c : float64) (s : Series) : Series := map (fdiv c) s.

(** [BaseWindow._prep_values]: the window kernels receive float64 values
    in which every infinity has been replaced by NaN.  A kernel value is
    therefore an observation (a rational) or missing. *)
Definition prep_value (x : float64) : option Q :=
  match x with Fin q => Some q | _ => None end.

Definition prep_values (s : Series) : list (option Q) := map prep_value s.

Definition of_kernel (o : option Q) : float64 :=
  match o with Some q => Fin q | None => NaN end.

(** ** Rolling mean ([roll_mean] of the window aggregations) *)

Record mean_state : Type := { sum_x : Q; nobs : Z }.

Definition mean_zero : mean_state := {| sum_x := 0; nobs := 0 |}.

Definition add_mean (st : mean_state) (v : option Q) : mean_state :=
  match v with
  | Some x => {| sum_x := sum_x st + x; nobs := nobs st + 1 |}
  | None => st
  end.

Definition remove_mean (st : mean_state) (v : option Q) : mean_state :=
  match v with
  | Some x => {| sum_x := sum_x st - x; nobs := nobs st - 1 |}
  | None => st
  end.

Definition calc_mean (minp : Z) (st : mean_state) : float64 :=
  if ((minp <=? nobs st)%Z && (0 <? nobs st)%Z)%bool
  then Fin (sum_x st / inject_Z (nobs st))
  else NaN.

(** [values[s:e]] *)
Definition slice {A : Type} (values : list A) (s e : nat) : list A :=
  firstn (e - s) (skipn s values).

(** One iteration of the kernel loop: set the accumulator up afresh when
    this is the first window or it does not overlap the previous one,
    otherwise remove the values that left and add those that entered. *)
Definition roll_mean_step (values : list (option Q))
    (prev : option (nat * nat * mean_state)) (s e : nat) : mean_state :=
  match prev with
  | Some (ps, pe, st) =>
      if (pe <=? s)%nat
      then fold_left add_mean (slice values s e) mean_zero
      else fold_left add_mean (slice values pe e)
             (fold_left remove_mean (slice values ps s) st)
  | None => fold_left add_mean (slice values s e) mean_zero
  end.

Fixpoint roll_mean_loop (values : list (option Q)) (minp : Z)
    (bounds : list (nat * nat)) (prev : option (nat * nat * mean_state))
  : Series :=
  match bounds with
  | [] => []
  | (s, e) :: rest =>
      let st := roll_mean_step values prev s e in
      calc_mean minp st :: roll_mean_loop values minp rest (Some (s, e, st))
  end.

(** [FixedWindowIndexer.get_window_bounds]: [end = i+1],
    [start = end - window] clipped at 0. *)
Definition window_bounds (n window : nat) : list (nat * nat) :=
  map (fun i => ((i + 1 - window)%nat, (i + 1)%nat)) (seq 0 n).

Definition roll_mean (values : list (option Q)) (window : nat) : Series :=
  roll_mean_loop values (Z.of_nat window)
    (window_bounds (length values) window) None.

(** [s.rolling(window=w).mean()]; [min_periods] defaults to the window.
    A negative window is rejected ("window must be an integer 0 or
    greater"). *)
Definition rolling_mean (window : Z) (s : Series) : result Series :=
  if (window <? 0)%Z then Err ValueError
  else Ok (roll_mean (prep_values s) (Z.to_nat window)).

(** ** Exponentially weighted mean ([ewm] kernel, [adjust=False]) *)

Record ewm_state : Type :=
  { weighted : option Q; old_wt : Q; ewm_nobs : Z }.

Definition ewm_out (minp : Z) (st : ewm_state) : float64 :=
  if (minp <=? ewm_nobs st)%Z then of_kernel (weighted st) else NaN.

Definition ewm_next (alpha : Q) (st : ewm_state) (cur : option Q) : ewm_state :=
  let n := match cur with Some _ => (ewm_nobs st + 1)%Z | None => ewm_nobs st end in
  match weighted st with
  | Some w =>
      let ow := old_wt st * (1 - alpha) in
      match cur with
      | Some c =>
          let w' := if Qeq_bool w c then w
                    else (ow * w + alpha * c) / (ow + alpha) in
          {| weighted := Some w'; old_wt := 1; ewm_nobs := n |}
      | None => {| weighted := Some w; old_wt := ow; ewm_nobs := n |}
      end
  | None => {| weighted := cur; old_wt := old_wt st; ewm_nobs := n |}
  end.

Fixpoint ewm_loop (alpha : Q) (minp : Z) (st : ewm_state)
    (vals : list (option Q)) : Series :=
  match vals with
  | [] => []
  | cur :: rest =>
      let st' := ewm_next alpha st cur in
      ewm_out minp st' :: ewm_loop alpha minp st' rest
  end.

Definition ewm_kernel (alpha : Q) (minp : Z) (vals : list (option Q)) : Series :=
  match vals with
  | [] => []
  | v0 :: rest =>
      let st := {| weighted := v0; old_wt := 1;
                   ewm_nobs := match v0 with Some _ => 1 | None => 0 end |} in
      ewm_out minp st :: ewm_loop alpha minp st rest
  end.

(** [get_center_of_mass]: [com = (span - 1) / 2], then
    [alpha = 1 / (1 + com)]. *)
Definition alpha_of_span (span : Z) : Q :=
  1 / (1 + (inject_Z span - 1) / 2).

(** [s.ewm(span=span, adjust=False).mean()]; spans below 1 are rejected
    ("span must satisfy: span >= 1"); [min_periods] becomes 1. *)
Definition ewm_mean (span : Z) (s : Series) : result Series :=
  if (span <? 1)%Z then Err ValueError
  else Ok (ewm_kernel (alpha_of_span span) 1 (prep_values s)).

(** ** DataFrame: a date index and named float64 columns *)

Record DataFrame : Type :=
  { index : list Z; columns : list (string * Series) }.

Fixpoint lookup (name : string) (cols : list (string * Series))
  : option Series :=
  match cols with
  | [] => None
  | (n, s) :: rest => if String.eqb n name then Some s else lookup name rest
  end.

(** [df[name]] *)
Definition getitem (df : DataFrame) (name : string) : result Series :=
  match lookup name (columns df) with
  | Some s => Ok s
  | None => Err KeyError
  end.

Fixpoint assign (name : string) (s : Series) (cols : list (string * Series))
  : list (string * Series) :=
  match cols with
  | [] => [(name, s)]
  | (n, c) :: rest =>
      if String.eqb n name then (n, s) :: rest
      else (n, c) :: assign name s rest
  end.

(** [df[name] = s]: overwrite the column when present, else append it. *)
Definition setitem (df : DataFrame) (name : string) (s : Series) : DataFrame :=
  {| index := index df; columns := assign name s (columns df) |}.

(** a row is complete when no column is NaN on it *)
Definition row_complete (cols : list (string * Series)) (i : nat) : bool :=
  forallb (fun c => negb (isnan (nth i (snd c) NaN))) cols.

Definition kept_rows (df : DataFrame) : list nat :=
  filter (row_complete (columns df)) (seq 0 (length (index df))).

Definition take {A : Type} (d : A) (rows : list nat) (l : list A) : list A :=
  map (fun i => nth i l d) rows.

(** [df.dropna()]: drop every row holding a NaN in any column. *)
Definition dropna (df : DataFrame) : DataFrame :=
  let rows := kept_rows df in
  {| index := take 0%Z rows (index df);
     columns := map (fun c => (fst c, take NaN rows (snd c))) (columns df) |}.

End Pandas.

(* ================================================================== *)
(** * main.py: the [indicator] command *)
(* ================================================================== *)

Import Pandas.
Local Open Scope py_scope.

(** the values accepted by the [--type] choice *)
Inductive IndicatorType : Type := SMA | EMA | RSI | MACD.

(** The local variables of the RSI branch, as functions of the close
    column. *)
Definition delta (close : Series) : Series := diff close.

Definition gain (period : Z) (close : Series) : result Series :=
  rolling_mean period
    (where_ (delta close) (gt_scalar (delta close) (Fin 0)) (Fin 0)).

Definition loss (period : Z) (close : Series) : result Series :=
  rolling_mean period
    (neg (where_ (delta close) (lt_scalar (delta close) (Fin 0)) (Fin 0))).

Definition rsi (period : Z) (close : Series) : result Series :=
  g <- gain period close ;;
  l <- loss period close ;;
  let rs := div g l in
  Ok (rsub (Fin 100) (rdiv (Fin 100) (radd (Fin 1) rs))).

(** The local variables of the MACD branch. *)
Definition ema12 (close : Series) : result Series := ewm_mean 12 close.
Definition ema26 (close : Series) : result Series := ewm_mean 26 close.

(** The frame after the indicator columns are assigned, before pruning. *)
Definition indicator_columns (indicator_type : IndicatorType) (period : Z)
    (df : DataFrame) : result DataFrame :=
  match indicator_type with
  | SMA =>
      close <- getitem df "Close" ;;
      sma <- rolling_mean period close ;;
      Ok (setitem df "SMA" sma)
  | EMA =>
      close <- getitem df "Close" ;;
      ema <- ewm_mean period close ;;
      Ok (setitem df "EMA" ema)
  | RSI =>
      close <- getitem df "Close" ;;
      r <- rsi period close ;;
      Ok (setitem df "RSI" r)
  | MACD =>
      close <- getitem df "Close" ;;
      e12 <- ema12 close ;;
      e26 <- ema26 close ;;
      let df1 := setitem df "MACD" (sub e12 e26) in
      macd <- getitem df1 "MACD" ;;
      signal <- ewm_mean 9 macd ;;
      Ok (setitem df1 "Signal" signal)
  end.

(** [indicator]: compute the columns, then [df.dropna(inplace=True)];
    the returned frame is what is written to the output file. *)
Definition indicator (indicator_type : IndicatorType) (symbol : string)
    (period : Z) (df : DataFrame) : result DataFrame :=
  df' <- indicator_columns indicator_type period df ;;
  Ok (dropna df').

(* ================================================================== *)
(** * backtrader: line buffers, indicators, broker *)
(* ================================================================== *)

Module Backtrader.

(** One row of the data feed. *)
Record Bar : Type :=
  { open : Q; high : Q; low : Q; close : Q; volume : Q }.

(** A line: its buffer, one slot per bar, preallocated with NaN ([None])
    by [forward(size=buflen)], and its minimum period. *)
Record Line : Type :=
  { array : list (option Q); minperiod : nat }.

(** [math.fsum] *)
Definition fsum (l : list Q) : Q := fold_left Qplus l 0.

(** A buffer of [n] slots in which the slots from [minp - 1] on hold the
    values of [f] and the earlier ones stay NaN. *)
Definition fill (n minp : nat) (f : nat -> option Q) : Line :=
  {| array := map (fun i => if (i <? minp - 1)%nat then None else f i)
                  (seq 0 n);
     minperiod := minp |}.

(** The batch ([runonce], the default of [Cerebro]) evaluation of a line,
    [_once]: slot [minperiod - 1] is written first ([oncestart]), then
    the slots after it; on a buffer with fewer than [minperiod] slots
    that first assignment raises "array assignment index out of
    range". *)
Definition once (n minp : nat) (f : nat -> option Q) : result Line :=
  if (n <? minp)%nat then Err IndexError else Ok (fill n minp f).

(** [SimpleMovingAverage(data, period)] for a positive period (the
    strategy passes 50 and 200), computed by [Average.once]:
    [dst[i] = math.fsum(src[i - period + 1:i + 1]) / period]. *)
Definition SimpleMovingAverage (src : list Q) (period : nat) : result Line :=
  once (length src) period
    (fun i => Some (fsum (Pandas.slice src (i + 1 - period) (i + 1))
                    / inject_Z (Z.of_nat period))).

Definition at_ (l : list (option Q)) (i : nat) : option Q := nth i l None.

Definition osub (a b : option Q) : option Q :=
  match a, b with
  | Some x, Some y => Some (x - y)
  | _, _ => None
  end.

(** comparisons of buffer values; False on NaN *)
Definition ogt (a b : option Q) : bool :=
  match a, b with
  | Some x, Some y => match (x ?= y)%Q with Gt => true | _ => false end
  | _, _ => false
  end.

Definition olt (a b : option Q) : bool := ogt b a.

Definition of_bool (b : bool) : option Q := Some (if b then 1 else 0).

(** truth value of a stored float: non-zero (NaN included) *)
Definition truthy (a : option Q) : bool :=
  match a with
  | Some x => negb (Qeq_bool x 0)
  | None => true
  end.

(** [NonZeroDifference]: the difference of the two lines, a zero
    difference being replaced by the last non-zero one. *)
Fixpoint nzd_once (prev : option Q) (d : list (option Q)) : list (option Q) :=
  match d with
  | [] => []
  | x :: rest =>
      let v := if truthy x then x else prev in
      v :: nzd_once v rest
  end.

Definition nzd_array (minp : nat) (d0 d1 : list (option Q))
  : list (option Q) :=
  repeat None (minp - 1) ++
  match skipn (minp - 1) (Pandas.map2 osub d0 d1) with
  | [] => []
  | seed :: rest => seed :: nzd_once seed rest
  end.

Definition NonZeroDifference (data0 data1 : Line) : result Line :=
  let minp := Nat.max (minperiod data0) (minperiod data1) in
  if (length (array data0) <? minp)%nat then Err IndexError
  else Ok {| array := nzd_array minp (array data0) (array data1);
             minperiod := minp |}.

(** [CrossUp] / [CrossDown] ([_CrossBase]):
    [before = nzd(-1) < 0.0], [after = data0 > data1] (mirrored for
    CrossDown), [cross = And(before, after)]. *)
Definition CrossBase (crossup : bool) (data0 data1 : Line) : result Line :=
  let n := length (array data0) in
  let minp := Nat.max (minperiod data0) (minperiod data1) in
  (nzd <- NonZeroDifference data0 data1 ;;
   delayed <- once n (minperiod nzd + 1)
                (fun i => at_ (array nzd) (i - 1)) ;;
   before <- once n (minperiod delayed)
                (fun i => of_bool (if crossup
                                   then olt (at_ (array delayed) i) (Some 0)
                                   else ogt (at_ (array delayed) i) (Some 0))) ;;
   after <- once n minp
                (fun i => of_bool (if crossup
                                   then ogt (at_ (array data0) i) (at_ (array data1) i)
                                   else olt (at_ (array data0) i) (at_ (array data1) i))) ;;
   once n (Nat.max (minperiod before) (minperiod after))
     (fun i => of_bool (truthy (at_ (array before) i)
                        && truthy (at_ (array after) i))))%py.

(** [CrossOver]: [upcross - downcross], so +1, -1 or 0. *)
Definition CrossOver (data0 data1 : Line) : result Line :=
  (upcross <- CrossBase true data0 data1 ;;
   downcross <- CrossBase false data0 data1 ;;
   once (length (array data0))
     (Nat.max (minperiod upcross) (minperiod downcross))
     (fun i => osub (at_ (array upcross) i) (at_ (array downcross) i)))%py.

(** ** Orders and the broker *)

Inductive Order : Type := Buy | Sell.

(** The default sizer ([FixedSize]) stakes one unit on every order. *)
Definition stake : Z := 1.

Record Broker : Type :=
  { cash : Q;
    position : Z;                     (* size held *)
    submitted : option (Order * Q) }. (* market order and its creation price *)

(** [broker.next()] on a bar opening at [popen].  A submitted order is
    first checked against the cash at its creation price
    ([check_submitted]) and rejected (Margin) when that leaves the cash
    negative; an accepted market order executes at the bar's opening
    price, a purchase being rejected when the cash cannot pay for it. *)
Definition broker_next (b : Broker) (popen : Q) : Broker :=
  match submitted b with
  | None => b
  | Some (Buy, created) =>
      if Qle_bool 0 (cash b - inject_Z stake * created)
         && Qle_bool 0 (cash b - inject_Z stake * popen)
      then {| cash := cash b - inject_Z stake * popen;
              position := position b + stake;
              submitted := None |}
      else {| cash := cash b; position := position b; submitted := None |}
  | Some (Sell, created) =>
      if Qle_bool 0 (cash b + inject_Z stake * created)
      then {| cash := cash b + inject_Z stake * popen;
              position := position b - stake;
              submitted := None |}
      else {| cash := cash b; position := position b; submitted := None |}
  end.

End Backtrader.

(* ================================================================== *)
(** * strategies/ma_crossover.py *)
(* ================================================================== *)

Import Backtrader.

Module MovingAverageCrossover.

Record Params : Type := { short_period : nat; long_period : nat }.

Definition params : Params := {| short_period := 50; long_period := 200 |}.

(** The strategy instance: its indicators and, as the run proceeds, one
    entry per bar holding the account as the strategy saw it on that bar
    and the order it then issued. *)
Record Strategy : Type :=
  { short_ma : Line;
    long_ma : Line;
    crossover : Line;
    history : list (Broker * option Order) }.

(** [__init__] declares the three indicators over [self.data.close]; they
    are evaluated over the preloaded feed before the first bar is
    delivered. *)
Definition init (p : Params) (data : list Bar) : result Strategy :=
  short <- SimpleMovingAverage (map close data) (short_period p) ;;
  long <- SimpleMovingAverage (map close data) (long_period p) ;;
  cross <- CrossOver short long ;;
  Ok {| short_ma := short; long_ma := long; crossover := cross;
        history := [] |}.

(** [next]: the decision taken on one bar. *)
Definition next (position : Z) (crossover0 : option Q) : option Order :=
  if (position =? 0)%Z then
    if ogt crossover0 (Some 0) then Some Buy else None
  else if olt crossover0 (Some 0) then Some Sell
  else None.

End MovingAverageCrossover.

(* ================================================================== *)
(** * main.py: the [backtest] command *)
(* ================================================================== *)

Import MovingAverageCrossover.

(** [strategy._oncepost] on bar [i]: [next] once the minimum period is
    reached, [prenext], which does nothing, before. *)
Definition oncepost (minp : nat) (cross : list (option Q)) (i : nat)
    (b : Broker) : option Order :=
  if (minp <=? i + 1)%nat then next (position b) (at_ cross i) else None.

(** [self.buy()] / [self.sell()]: a market order, created at the bar's
    close, handed to the broker. *)
Definition submit (b : Broker) (order : option Order) (pclose : Q) : Broker :=
  {| cash := cash b; position := position b;
     submitted := option_map (fun o => (o, pclose)) order |}.

(** The [cerebro.run()] loop over the bars from index [i]: on each bar
    the broker first processes the order left by the previous bar, then
    the strategy is called.  Each bar is recorded with the account as the
    strategy saw it and the order it issued. *)
Fixpoint run_bars (minp : nat) (cross : list (option Q)) (i : nat)
    (bars : list Bar) (b : Broker) : list (Broker * option Order) :=
  match bars with
  | [] => []
  | bar :: rest =>
      let b1 := broker_next b (open bar) in
      let order := oncepost minp cross i b1 in
      (b1, order)
      :: run_bars minp cross (i + 1) rest (submit b1 order (close bar))
  end.

(** the strategy's minimum period: the largest among its indicators *)
Definition strategy_minperiod (strat : Strategy) : nat :=
  Nat.max (minperiod (short_ma strat))
    (Nat.max (minperiod (long_ma strat)) (minperiod (crossover strat))).

Definition cerebro_run (data : list Bar) (strat : Strategy) (b : Broker)
  : Strategy :=
  {| short_ma := short_ma strat; long_ma := long_ma strat;
     crossover := crossover strat;
     history := run_bars (strategy_minperiod strat)
                  (array (crossover strat)) 0 data b |}.

(** the value accepted by the [--strategy] choice *)
Inductive StrategyChoice : Type := ma_crossover.

Definition initial_cash : Q := 100000.

(** [backtest]: feed the data, add the strategy with its default
    parameters, set the cash, run; the result is [results[0]]. *)
Definition backtest (strategy : StrategyChoice) (symbol : string)
    (data : list Bar) (output : string) : result Strategy :=
  match strategy with
  | ma_crossover =>
      strat <- init params data ;;
      Ok (cerebro_run data strat
            {| cash := initial_cash; position := 0; submitted := None |})
  end.

(* ================================================================== *)
(** * Notions used to state the properties *)
(* ================================================================== *)

(** a value is defined when it is not NaN *)
Definition defined (x : float64) : bool := negb (isnan x).

Definition count_defined (s : Series) : nat := length (filter defined s).

(** equality of float64 values, rationals being compared by value *)
Inductive feq : float64 -> float64 -> Prop :=
| feq_fin (a b : Q) : a == b -> feq (Fin a) (Fin b)
| feq_pinf : feq PInf PInf
| feq_ninf : feq NInf NInf
| feq_nan : feq NaN NaN.

Fixpoint Qsum (l : list Q) : Q :=
  match l with
  | [] => 0
  | x :: t => x + Qsum t
  end.

(** the values [f (i-p+1)], ..., [f i] of a per-bar quantity *)
Definition window (f : nat -> Q) (p i : nat) : list Q :=
  map f (seq (i + 1 - p) p).

(** arithmetic mean of a per-bar quantity over the window [[i-p+1, i]] *)
Definition window_mean (f : nat -> Q) (p i : nat) : Q :=
  Qsum (window f p i) / inject_Z (Z.of_nat p).

(** the close of bar [j] of a series *)
Definition close_at (S : list Q) (j : nat) : Q := nth j S 0.

(** per-bar gain and loss: the positive part of the price change and of
    its opposite; bar 0 has no previous bar and counts as no change *)
Definition pos_part (d : Q) : Q :=
  match (d ?= 0)%Q with Gt => d | _ => 0 end.

Definition bar_gain (S : list Q) (j : nat) : Q :=
  match j with
  | O => 0
  | S j' => pos_part (nth j S 0 - nth j' S 0)
  end.

Definition bar_loss (S : list Q) (j : nat) : Q :=
  match j with
  | O => 0
  | S j' => pos_part (nth j' S 0 - nth j S 0)
  end.

(** sum and number of the observations of a list of kernel values *)
Fixpoint osum (l : list (option Q)) : Q :=
  match l with
  | [] => 0
  | Some x :: t => x + osum t
  | None :: t => osum t
  end.

Fixpoint ocount (l : list (option Q)) : Z :=
  match l with
  | [] => 0
  | Some _ :: t => 1 + ocount t
  | None :: t => ocount t
  end.

(** the accumulator a rolling window [[i+1-w, i+1)] amounts to *)
Definition window_state (values : list (option Q)) (w i : nat) : mean_state :=
  {| sum_x := osum (slice values (i + 1 - w) (i + 1));
     nobs := ocount (slice values (i + 1 - w) (i + 1)) |}.

Definition mean_state_eq (a b : mean_state) : Prop :=
  sum_x a == sum_x b /\ nobs a = nobs b.

(** what the rolling loop carries from window [k-1] when it reaches
    window [k] *)
Definition prev_ok (values : list (option Q)) (w k : nat)
    (prev : option (nat * nat * mean_state)) : Prop :=
  match prev with
  | None => k = 0%nat
  | Some (ps, pe, st) =>
      (0 < k)%nat /\ ps = (k - w)%nat /\ pe = k /\
      mean_state_eq st (window_state values w (k - 1))
  end.

(** the smoothing factor the specification names for a span *)
Definition alpha (span : Z) : Q := 2 / (inject_Z span + 1).

(** The specification's EMA: the first value is the first close, every
    later value is [alpha * close + (1 - alpha) * previous]. *)
Fixpoint ema_from (a prev : Q) (S : list Q) : list Q :=
  match S with
  | [] => []
  | c :: t => let e := a * c + (1 - a) * prev in e :: ema_from a e t
  end.

Definition ema_spec (a : Q) (S : list Q) : list Q :=
  match S with
  | [] => []
  | c :: t => c :: ema_from a c t
  end.

(** what the RSI branch feeds to the two rolling means, element by
    element, and the RSI value obtained from the two averages *)
Definition gain_elt (x : float64) : float64 :=
  if fgt x (Fin 0) then x else Fin 0.

Definition loss_elt (x : float64) : float64 :=
  fneg (if flt x (Fin 0) then x else Fin 0).

Definition rsi_value (g l : float64) : float64 :=
  fsub (Fin 100) (fdiv (Fin 100) (fadd (Fin 1) (fdiv g l))).

(** successive differences of a rational series after a value [prev] *)
Fixpoint qdiff_from (prev : Q) (cs : list Q) : list Q :=
  match cs with
  | [] => []
  | x :: t => (x - prev) :: qdiff_from x t
  end.

Definition loss_q (d : Q) : Q :=
  - match (0 ?= d)%Q with Gt => d | _ => 0 end.

Definition gains_q (cs : list Q) : list Q :=
  match cs with
  | [] => []
  | c :: t => 0 :: map pos_part (qdiff_from c t)
  end.

Definition losses_q (cs : list Q) : list Q :=
  match cs with
  | [] => []
  | c :: t => (- 0) :: map loss_q (qdiff_from c t)
  end.




(** a bar on which nothing moves, and a series on which the 50-bar
    average crosses above the 200-bar average on bar 200 *)
Definition flat_bar (p : Q) : Bar :=
  {| open := p; high := p; low := p; close := p; volume := 0 |}.

Definition example_bars : list Bar :=
  repeat (flat_bar 100) 150 ++ repeat (flat_bar 99) 50 ++
  [ {| open := 99; high := 1000; low := 99; close := 1000; volume := 0 |};
    flat_bar 1000 ].

Definition empty_strategy : Strategy :=
  {| short_ma := {| array := []; minperiod := 0 |};
     long_ma := {| array := []; minperiod := 0 |};
     crossover := {| array := []; minperiod := 0 |};
     history := [] |}.

Definition example_run : Strategy :=
  match backtest ma_crossover "X" example_bars "out" with
  | Ok strat => strat
  | Err _ => empty_strategy
  end.

(** the account is flat or holds one unit, and a pending order fits it *)
Definition account_ok (b : Broker) : Prop :=
  (position b = 0 \/ position b = 1)%Z /\
  match submitted b with
  | Some (Buy, _) => position b = 0%Z
  | Some (Sell, _) => position b = 1%Z
  | None => True
  end.

(** the column names an indicator assigns *)
Definition new_columns (t : IndicatorType) : list string :=
  match t with
  | SMA => ["SMA"%string]
  | EMA => ["EMA"%string]
  | RSI => ["RSI"%string]
  | MACD => ["MACD"%string; "Signal"%string]
  end.

(* ================================================================== *)
(** * backtrader: the DrawDown analyzer and the summary of a run *)
(* ================================================================== *)

Module DrawDown.

(** [rets.max]: the largest drawdown met so far *)
Record Max : Type :=
  { max_len : Z; max_drawdown : Q; max_moneydown : Q }.

(** [rets]: the drawdown on the current bar, and the largest so far *)
Record Analysis : Type :=
  { len : Z; drawdown : Q; moneydown : Q; max : Max }.

(** the analyzer: its results and the peak value ([None] is the initial
    [-inf]) *)
Record State : Type := { rets : Analysis; _maxvalue : option Q }.

(** [create_analysis] *)
Definition create_analysis : State :=
  {| rets := {| len := 0; drawdown := 0; moneydown := 0;
                max := {| max_len := 0; max_drawdown := 0;
                          max_moneydown := 0 |} |};
     _maxvalue := None |}.

(** Python's [max(a, b)]: [b] when it is greater, else [a] *)
Definition pymax (a b : Q) : Q :=
  match (b ?= a)%Q with Gt => b | _ => a end.

(** One bar: [notify_fund] records the value and raises the peak, then
    [next] updates the results.  The drawdown divides by the peak: on a
    peak of zero the division raises (ZeroDivisionError), which [None]
    stands for. *)
Definition next (st : State) (value : Q) : option State :=
  let peak := match _maxvalue st with
              | None => value
              | Some m => pymax m value
              end in
  if Qeq_bool peak 0 then None
  else
    let r := rets st in
    let md := peak - value in
    let dd := 100 * md / peak in
    let l := if Qeq_bool dd 0 then 0%Z else (len r + 1)%Z in
    Some {| rets :=
              {| len := l; drawdown := dd; moneydown := md;
                 max := {| max_len := Z.max (max_len (max r)) l;
                           max_drawdown := pymax (max_drawdown (max r)) dd;
                           max_moneydown := pymax (max_moneydown (max r)) md
                        |} |};
            _maxvalue := Some peak |}.

Fixpoint run (st : State) (values : list Q) : option State :=
  match values with
  | [] => Some st
  | v :: rest =>
      match next st v with
      | Some st' => run st' rest
      | None => None
      end
  end.

End DrawDown.

(** [broker.getvalue()] on a bar: the cash plus the position at the
    bar's close. *)
Definition portfolio_value (bar : Bar) (b : Broker) : Q :=
  cash b + inject_Z (position b) * close bar.

(** the values the analyzer is notified of, bar by bar *)
Definition run_values (data : list Bar) (strat : Strategy) : list Q :=
  map2 (fun bar e => portfolio_value bar (fst e)) data (history strat).

(** [strat.analyzers.drawdown.get_analysis()] after the run *)
Definition drawdown_analysis (data : list Bar) (strat : Strategy)
  : option DrawDown.Analysis :=
  option_map DrawDown.rets
    (DrawDown.run DrawDown.create_analysis (run_values data strat)).

(** the two drawdown entries of [result_summary]: ['Max Drawdown'] is
    [drawdown.get('max')] and ['Drawdown Period'] is
    [drawdown.get('len')] *)
Record DrawdownSummary : Type :=
  { Max_Drawdown : DrawDown.Max; Drawdown_Period : Z }.

Definition drawdown_summary (a : DrawDown.Analysis) : DrawdownSummary :=
  {| Max_Drawdown := DrawDown.max a; Drawdown_Period := DrawDown.len a |}.

(* ================================================================== *)
(** * Further notions used to state properties *)
(* ================================================================== *)


(** a table in which every column has one value per row and none is
    undefined *)
Definition complete (df : DataFrame) : Prop :=
  forall name col, In (name, col) (columns df) ->
    length col = length (index df) /\ forall x, In x col -> x <> NaN.

(** every value of a series lies between two bounds *)
Definition between (lo hi : Q) (cs : list Q) : Prop :=
  Forall (fun c => lo <= c /\ c <= hi) cs.

(** a series that rises, or falls, from each bar to the next *)
Definition rising (cs : list Q) : Prop :=
  forall j, (S j < length cs)%nat -> nth j cs 0 < nth (S j) cs 0.

Definition falling (cs : list Q) : Prop :=
  forall j, (S j < length cs)%nat -> nth (S j) cs 0 < nth j cs 0.

(** what the analyzer's results satisfy after [n] bars, the peak being
    positive *)
Definition drawdown_bounds (a : DrawDown.Analysis) (n : Z) : Prop :=
  0 <= DrawDown.drawdown a /\
  DrawDown.drawdown a <= DrawDown.max_drawdown (DrawDown.max a) /\
  DrawDown.max_drawdown (DrawDown.max a) <= 100 /\
  0 <= DrawDown.moneydown a /\
  DrawDown.moneydown a <= DrawDown.max_moneydown (DrawDown.max a) /\
  (0 <= DrawDown.len a)%Z /\
  (DrawDown.len a <= DrawDown.max_len (DrawDown.max a))%Z /\
  (DrawDown.max_len (DrawDown.max a) <= n)%Z.

Definition drawdown_inv (st : DrawDown.State) (n : Z) : Prop :=
  (exists m, DrawDown._maxvalue st = Some m /\ 0 < m) /\
  drawdown_bounds (DrawDown.rets st) n.

(** no bar opens or closes below zero *)
Definition nonneg_prices (data : list Bar) : Prop :=
  Forall (fun bar => 0 <= open bar /\ 0 <= close bar) data.

(* ================================================================== *)
(** * Facts about lists, slices and rational sums *)
(* ================================================================== *)

Section ListFacts.

Context {A : Type}.

Lemma slice_nil (l : list A) (s : nat) : slice l s s = [].
Proof. unfold slice. now rewrite Nat.sub_diag. Qed.

Lemma firstn_plus (l : list A) (m k : nat) :
  firstn (m + k) l = firstn m l ++ firstn k (skipn m l).
Proof.
  revert l; induction m as [|m IH]; intros l; simpl; [reflexivity|].
  destruct l as [|x l]; simpl.
  - now rewrite firstn_nil.
  - now rewrite IH.
Qed.

Lemma skipn_plus (l : list A) (m k : nat) :
  skipn (m + k) l = skipn k (skipn m l).
Proof.
  revert l; induction m as [|m IH]; intros l; simpl; [reflexivity|].
  destruct l as [|x l]; simpl.
  - now rewrite skipn_nil.
  - apply IH.
Qed.

(** [l[a:c] = l[a:b] ++ l[b:c]] *)
Lemma slice_split (l : list A) (a b c : nat) :
  (a <= b)%nat -> (b <= c)%nat -> slice l a c = slice l a b ++ slice l b c.
Proof.
  intros Hab Hbc. unfold slice.
  replace (c - a)%nat with ((b - a) + (c - b))%nat by lia.
  rewrite firstn_plus. f_equal. f_equal.
  replace b with (a + (b - a))%nat at 2 by lia.
  now rewrite skipn_plus.
Qed.

Lemma slice_length (l : list A) (a b : nat) :
  (a <= b)%nat -> (b <= length l)%nat -> length (slice l a b) = (b - a)%nat.
Proof.
  intros Hab Hb. unfold slice.
  rewrite length_firstn, length_skipn. lia.
Qed.

Lemma slice_map {B : Type} (f : A -> B) (l : list A) (a b : nat) :
  slice (map f l) a b = map f (slice l a b).
Proof. unfold slice. now rewrite skipn_map, firstn_map. Qed.

Lemma slice_one (d : A) (l : list A) (a : nat) :
  (a < length l)%nat -> slice l a (S a) = [nth a l d].
Proof.
  unfold slice. replace (S a - a)%nat with 1%nat by lia.
  revert a; induction l as [|x l IHl]; intros a Hlt; simpl in Hlt; [lia|].
  destruct a as [|a]; [reflexivity|].
  simpl skipn. simpl nth. apply IHl. lia.
Qed.

(** a slice within bounds lists the elements by index *)
Lemma slice_seq (d : A) (l : list A) (a n : nat) :
  (a + n <= length l)%nat ->
  slice l a (a + n) = map (fun j => nth j l d) (seq a n).
Proof.
  revert a; induction n as [|n IH]; intros a Hle.
  - replace (a + 0)%nat with a by lia. now rewrite slice_nil.
  - rewrite (slice_split l (a := a) (b := S a) (c := a + S n)) by lia.
    replace (a + S n)%nat with (S a + n)%nat by lia.
    rewrite IH by lia. rewrite (slice_one d) by lia. reflexivity.
Qed.

Lemma nth_map_seq (d : A) (f : nat -> A) (k n i : nat) :
  (i < n)%nat -> nth i (map f (seq k n)) d = f (k + i)%nat.
Proof.
  intros Hi.
  rewrite (nth_indep _ d (f 0%nat)) by (rewrite length_map, length_seq; lia).
  rewrite (map_nth f (seq k n) 0%nat i), seq_nth by lia. reflexivity.
Qed.

End ListFacts.

Lemma Forall2_nth_both {A B : Type} (R : A -> B -> Prop) (l : list A)
    (m : list B) (da : A) (db : B) :
  Forall2 R l m ->
  forall i, (i < length l)%nat -> R (nth i l da) (nth i m db).
Proof.
  induction 1 as [|x y l m Hxy _ IH]; intros i Hi; simpl in Hi; [lia|].
  destruct i as [|i]; simpl; [assumption|]. apply IH. lia.
Qed.

Lemma Qsum_app (l m : list Q) : Qsum (l ++ m) == Qsum l + Qsum m.
Proof.
  induction l as [|x l IH]; simpl; [lra|]. rewrite IH. lra.
Qed.

Lemma osum_app (l m : list (option Q)) : osum (l ++ m) == osum l + osum m.
Proof.
  induction l as [|[x|] l IH]; cbn [osum app]; try rewrite IH; lra.
Qed.

Lemma ocount_app (l m : list (option Q)) :
  ocount (l ++ m) = (ocount l + ocount m)%Z.
Proof.
  induction l as [|[x|] l IH]; cbn [ocount app]; try rewrite IH; lia.
Qed.

Lemma osum_some (l : list Q) : osum (map Some l) = Qsum l.
Proof. induction l as [|x l IH]; simpl; congruence. Qed.

Lemma ocount_some (l : list Q) : ocount (map Some l) = Z.of_nat (length l).
Proof.
  induction l as [|x l IH]; [reflexivity|].
  cbn [map ocount length]. rewrite IH, Nat2Z.inj_succ. lia.
Qed.

Lemma ocount_nonneg (l : list (option Q)) : (0 <= ocount l)%Z.
Proof. induction l as [|[x|] l IH]; cbn [ocount]; lia. Qed.

Lemma ocount_le_length (l : list (option Q)) :
  (ocount l <= Z.of_nat (length l))%Z.
Proof.
  induction l as [|[x|] l IH]; cbn [ocount length];
    try rewrite Nat2Z.inj_succ; lia.
Qed.

(* ================================================================== *)
(** * The rolling-mean kernel computes the mean of each window *)
(* ================================================================== *)

Section RollingKernel.

Lemma feq_refl (x : float64) : feq x x.
Proof. destruct x; constructor. reflexivity. Qed.

Lemma mean_state_eq_refl (a : mean_state) : mean_state_eq a a.
Proof. split; reflexivity. Qed.

Lemma fold_add_mean (l : list (option Q)) (st : mean_state) :
  mean_state_eq (fold_left add_mean l st)
    {| sum_x := sum_x st + osum l; nobs := nobs st + ocount l |}.
Proof.
  revert st; induction l as [|[x|] l IH]; intros st;
    cbn [fold_left osum ocount].
  - split; cbn [sum_x nobs]; [lra|lia].
  - destruct (IH (add_mean st (Some x))) as [Hs Hn].
    split; cbn [sum_x nobs]; [rewrite Hs | rewrite Hn];
      cbn [add_mean sum_x nobs]; [lra | lia].
  - apply IH.
Qed.

Lemma fold_remove_mean (l : list (option Q)) (st : mean_state) :
  mean_state_eq (fold_left remove_mean l st)
    {| sum_x := sum_x st - osum l; nobs := nobs st - ocount l |}.
Proof.
  revert st; induction l as [|[x|] l IH]; intros st;
    cbn [fold_left osum ocount].
  - split; cbn [sum_x nobs]; [lra|lia].
  - destruct (IH (remove_mean st (Some x))) as [Hs Hn].
    split; cbn [sum_x nobs]; [rewrite Hs | rewrite Hn];
      cbn [remove_mean sum_x nobs]; [lra | lia].
  - apply IH.
Qed.

Lemma calc_mean_proper (minp : Z) (a b : mean_state) :
  mean_state_eq a b -> feq (calc_mean minp a) (calc_mean minp b).
Proof.
  intros [Hs Hn]. unfold calc_mean. rewrite Hn.
  destruct ((minp <=? nobs b)%Z && (0 <? nobs b)%Z); constructor.
  rewrite Hs. reflexivity.
Qed.

Variable values : list (option Q).
Variable w : nat.

Lemma fresh_window (k : nat) :
  mean_state_eq
    (fold_left add_mean (slice values (k + 1 - w) (k + 1)) mean_zero)
    (window_state values w k).
Proof.
  destruct (fold_add_mean (slice values (k + 1 - w) (k + 1)) mean_zero)
    as [Hs Hn].
  cbn [sum_x nobs mean_zero] in Hs, Hn.
  split; cbn [sum_x nobs window_state]; [rewrite Hs; lra | rewrite Hn; lia].
Qed.

Lemma roll_mean_step_ok (k : nat) (prev : option (nat * nat * mean_state)) :
  prev_ok values w k prev ->
  mean_state_eq (roll_mean_step values prev (k + 1 - w) (k + 1))
    (window_state values w k).
Proof.
  destruct prev as [[[ps pe] st]|]; simpl.
  - intros (Hk & -> & -> & Hs & Hn).
    destruct (Nat.leb_spec k (k + 1 - w)) as [Hle|Hgt].
    + apply fresh_window.
    + assert (Hw : (1 <= w)%nat) by lia.
      destruct (fold_add_mean (slice values k (k + 1))
                  (fold_left remove_mean
                     (slice values (k - w) (k + 1 - w)) st)) as [Ha Hna].
      destruct (fold_remove_mean (slice values (k - w) (k + 1 - w)) st)
        as [Hr Hnr].
      cbn [sum_x nobs window_state] in Hs, Hn, Ha, Hna, Hr, Hnr.
      replace (k - 1 + 1 - w)%nat with (k - w)%nat in Hs, Hn by lia.
      replace (k - 1 + 1)%nat with k in Hs, Hn by lia.
      rewrite (slice_split values (a := (k - w)%nat) (b := (k + 1 - w)%nat)
                 (c := k)) in Hs, Hn by lia.
      rewrite osum_app in Hs. rewrite ocount_app in Hn.
      split; cbn [sum_x nobs window_state].
      * rewrite Ha, Hr, Hs.
        rewrite (slice_split values (a := (k + 1 - w)%nat) (b := k)
                   (c := (k + 1)%nat)) by lia.
        rewrite osum_app. lra.
      * rewrite Hna, Hnr, Hn.
        rewrite (slice_split values (a := (k + 1 - w)%nat) (b := k)
                   (c := (k + 1)%nat)) by lia.
        rewrite ocount_app. lia.
  - intros ->. apply (fresh_window 0).
Qed.

Lemma roll_mean_loop_ok (minp : Z) (m : nat) :
  forall (k : nat) (prev : option (nat * nat * mean_state)),
  prev_ok values w k prev ->
  Forall2 feq
    (roll_mean_loop values minp
       (map (fun i => ((i + 1 - w)%nat, (i + 1)%nat)) (seq k m)) prev)
    (map (fun i => calc_mean minp (window_state values w i)) (seq k m)).
Proof.
  induction m as [|m IH]; intros k prev Hprev; simpl; constructor.
  - apply calc_mean_proper, roll_mean_step_ok, Hprev.
  - apply IH. cbn [prev_ok].
    split; [lia | split; [lia | split; [lia | ]]].
    replace (S k - 1)%nat with k by lia.
    apply roll_mean_step_ok, Hprev.
Qed.

(** The kernel's output on window [i] is the mean of the observations
    [values[i+1-w : i+1]], when there are at least [w] of them. *)
Lemma roll_mean_windowed :
  Forall2 feq (roll_mean values w)
    (map (fun i => calc_mean (Z.of_nat w) (window_state values w i))
         (seq 0 (length values))).
Proof. apply roll_mean_loop_ok. reflexivity. Qed.

Lemma roll_mean_length : length (roll_mean values w) = length values.
Proof.
  rewrite (Forall2_length roll_mean_windowed), length_map, length_seq.
  reflexivity.
Qed.

Lemma roll_mean_nth (i : nat) :
  (i < length values)%nat ->
  feq (nth i (roll_mean values w) NaN)
      (calc_mean (Z.of_nat w) (window_state values w i)).
Proof.
  intros Hi.
  pose proof (Forall2_nth_both NaN NaN roll_mean_windowed) as H.
  specialize (H i). rewrite roll_mean_length in H. specialize (H Hi).
  rewrite nth_map_seq in H by assumption. exact H.
Qed.

End RollingKernel.

Lemma ocount_slice_le (values : list (option Q)) (a b : nat) :
  (ocount (slice values a b) <= Z.of_nat (b - a))%Z.
Proof.
  pose proof (ocount_le_length (slice values a b)) as H.
  unfold slice in *. rewrite length_firstn in H. lia.
Qed.

(** Before the window is full, and for an empty window, the value is
    undefined. *)
Lemma roll_mean_undefined (values : list (option Q)) (w i : nat) :
  (i + 1 < w)%nat \/ w = 0%nat -> nth i (roll_mean values w) NaN = NaN.
Proof.
  intros Hw.
  destruct (Nat.lt_ge_cases i (length values)) as [Hi|Hi].
  - pose proof (roll_mean_nth values w Hi) as H.
    pose proof (ocount_slice_le values (i + 1 - w) (i + 1)) as Hc.
    unfold calc_mean in H. cbn [window_state nobs sum_x] in H.
    replace ((Z.of_nat w <=? ocount (slice values (i + 1 - w) (i + 1)))%Z
             && (0 <? ocount (slice values (i + 1 - w) (i + 1)))%Z)
      with false in H.
    + inversion H. reflexivity.
    + symmetry. apply andb_false_iff.
      destruct Hw as [Hw|Hw]; [left; apply Z.leb_gt | right; apply Z.ltb_ge];
        lia.
  - apply nth_overflow. rewrite roll_mean_length. exact Hi.
Qed.

(** On a series without missing values a full window yields the
    arithmetic mean of its [w] elements. *)
Lemma roll_mean_finite (S : list Q) (w i : nat) :
  (1 <= w)%nat -> (w <= i + 1)%nat -> (i < length S)%nat ->
  exists v, nth i (roll_mean (map Some S) w) NaN = Fin v /\
            v == window_mean (fun j => nth j S 0) w i.
Proof.
  intros Hw Hwi Hi.
  assert (Hi' : (i < length (map Some S))%nat) by now rewrite length_map.
  pose proof (roll_mean_nth (map Some S) w Hi') as H.
  unfold calc_mean in H. cbn [window_state nobs sum_x] in H.
  rewrite slice_map, osum_some, ocount_some, slice_length in H by lia.
  replace ((Z.of_nat w <=? Z.of_nat (i + 1 - (i + 1 - w)))%Z
           && (0 <? Z.of_nat (i + 1 - (i + 1 - w)))%Z) with true in H
    by (symmetry; apply andb_true_iff; split;
        [apply Z.leb_le | apply Z.ltb_lt]; lia).
  inversion H as [a b Hab Ha Hb| | |]; subst.
  exists a. split; [reflexivity|].
  rewrite Hab. unfold window_mean, window.
  replace (i + 1 - (i + 1 - w))%nat with w by lia.
  replace (i + 1)%nat with ((i + 1 - w) + w)%nat at 2 by lia.
  rewrite (slice_seq 0 S) by lia.
  reflexivity.
Qed.

Lemma prep_values_fin (S : list Q) : prep_values (map Fin S) = map Some S.
Proof. unfold prep_values. rewrite map_map. reflexivity. Qed.

(** The defined values of a series that is undefined exactly on its first
    [k] positions. *)
Lemma count_defined_from (l : Series) :
  forall k : nat,
  (forall i, (i < k)%nat -> nth i l NaN = NaN) ->
  (forall i, (k <= i)%nat -> (i < length l)%nat -> nth i l NaN <> NaN) ->
  count_defined l = (length l - k)%nat.
Proof.
  unfold count_defined.
  induction l as [|x l IH]; intros k Hlo Hhi; [reflexivity|].
  destruct k as [|k].
  - assert (Hx : defined x = true).
    { specialize (Hhi 0%nat (Nat.le_refl 0)). simpl in Hhi.
      destruct x; try reflexivity. exfalso. apply Hhi; [lia|reflexivity]. }
    cbn [filter]. rewrite Hx. cbn [length]. rewrite (IH 0%nat).
    + lia.
    + intros i Hi. lia.
    + intros i _ Hi. apply (Hhi (S i)); simpl; lia.
  - assert (Hx : defined x = false).
    { specialize (Hlo 0%nat). simpl in Hlo. rewrite Hlo by lia. reflexivity. }
    cbn [filter]. rewrite Hx. cbn [length]. rewrite (IH k).
    + lia.
    + intros i Hi. apply (Hlo (S i)). lia.
    + intros i Hk Hi. apply (Hhi (S i)); simpl; lia.
Qed.

(* ================================================================== *)
(** * Frames: reading back an assigned column *)
(* ================================================================== *)

Lemma lookup_assign_same (name : string) (s : Series)
    (cols : list (string * Series)) :
  lookup name (assign name s cols) = Some s.
Proof.
  induction cols as [|[n c] cols IH]; simpl.
  - now rewrite String.eqb_refl.
  - destruct (String.eqb n name) eqn:E; simpl; rewrite E; [reflexivity|exact IH].
Qed.

Lemma lookup_assign_other (name name' : string) (s : Series)
    (cols : list (string * Series)) :
  name' <> name -> lookup name' (assign name s cols) = lookup name' cols.
Proof.
  intros Hne. induction cols as [|[n c] cols IH]; simpl.
  - apply String.eqb_neq in Hne. rewrite String.eqb_sym. now rewrite Hne.
  - destruct (String.eqb n name) eqn:E; simpl.
    + apply String.eqb_eq in E; subst n.
      assert (E' : String.eqb name name' = false)
        by (apply String.eqb_neq; congruence).
      now rewrite E'.
    + destruct (String.eqb n name'); [reflexivity|exact IH].
Qed.

Lemma getitem_setitem_same (df : DataFrame) (name : string) (s : Series) :
  getitem (setitem df name s) name = Ok s.
Proof. unfold getitem, setitem; simpl. now rewrite lookup_assign_same. Qed.

Lemma getitem_setitem_other (df : DataFrame) (name name' : string)
    (s : Series) :
  name' <> name -> getitem (setitem df name s) name' = getitem df name'.
Proof.
  intros Hne. unfold getitem, setitem; simpl.
  now rewrite lookup_assign_other.
Qed.

(* ================================================================== *)
(** * C2: the SMA column *)
(* ================================================================== *)

(** C2.  For every positive period [p] and every close series [S] with
    [length S >= p], the SMA column computed by [indicator] has exactly
    [length S - p + 1] defined values; it is undefined on the bars
    [i < p - 1] and, on every bar [i >= p - 1], equal to the arithmetic
    mean of the closes of the window [[i-p+1, i]]. *)
Theorem sma_window_mean (df : DataFrame) (S : list Q) (period : Z) :
  getitem df "Close" = Ok (map Fin S) ->
  (0 < period)%Z ->
  (period <= Z.of_nat (length S))%Z ->
  exists df' sma,
    indicator_columns SMA period df = Ok df' /\
    getitem df' "SMA" = Ok sma /\
    length sma = length S /\
    count_defined sma = (length S - Z.to_nat period + 1)%nat /\
    forall i : nat, (i < length S)%nat ->
      ((i < Z.to_nat period - 1)%nat -> nth i sma NaN = NaN) /\
      ((Z.to_nat period - 1 <= i)%nat ->
       exists v, nth i sma NaN = Fin v /\
                 v == window_mean (close_at S) (Z.to_nat period) i).
Proof.
  intros Hclose Hpos Hle.
  set (p := Z.to_nat period).
  assert (Hp : (1 <= p)%nat) by (unfold p; lia).
  assert (Hpn : (p <= length S)%nat) by (unfold p; lia).
  exists (setitem df "SMA" (roll_mean (map Some S) p)),
         (roll_mean (map Some S) p).
  assert (Hlen : length (roll_mean (map Some S) p) = length S)
    by now rewrite roll_mean_length, length_map.
  assert (Hlo : forall i, (i < p - 1)%nat ->
                  nth i (roll_mean (map Some S) p) NaN = NaN)
    by (intros i Hi; apply roll_mean_undefined; lia).
  assert (Hhi : forall i, (p - 1 <= i)%nat -> (i < length S)%nat ->
                  exists v, nth i (roll_mean (map Some S) p) NaN = Fin v /\
                            v == window_mean (close_at S) p i)
    by (intros i Hi Hn; apply roll_mean_finite; lia).
  repeat split.
  - unfold indicator_columns. rewrite Hclose. cbn [bind].
    unfold rolling_mean.
    replace (period <? 0)%Z with false by (symmetry; apply Z.ltb_ge; lia).
    cbn [bind]. now rewrite prep_values_fin.
  - apply getitem_setitem_same.
  - exact Hlen.
  - rewrite (count_defined_from _ (k := (p - 1)%nat)).
    + rewrite Hlen. lia.
    + exact Hlo.
    + intros i Hk Hi. rewrite Hlen in Hi.
      destruct (Hhi i Hk Hi) as (v & Hv & _). rewrite Hv. discriminate.
  - apply Hlo.
  - intros Hi. apply Hhi; assumption.
Qed.

(** an instance: closes 100, 102, 104, 106, 108 and period 2 *)
Lemma sma_window_mean_witness :
  exists df' sma,
    indicator_columns SMA 2
      {| index := [1; 2; 3; 4; 5]%Z;
         columns := [("Close"%string,
                      map Fin [100; 102; 104; 106; 108])] |} = Ok df' /\
    getitem df' "SMA" = Ok sma /\
    length sma = 5%nat /\
    count_defined sma = 4%nat /\
    forall i : nat, (i < 5)%nat ->
      ((i < 1)%nat -> nth i sma NaN = NaN) /\
      ((1 <= i)%nat ->
       exists v, nth i sma NaN = Fin v /\
                 v == window_mean (close_at [100; 102; 104; 106; 108]) 2 i).
Proof.
  apply (@sma_window_mean
           {| index := [1; 2; 3; 4; 5]%Z;
              columns := [("Close"%string,
                           map Fin [100; 102; 104; 106; 108])] |}
           [100; 102; 104; 106; 108] 2).
  - reflexivity.
  - lia.
  - simpl. lia.
Defined.

(* ================================================================== *)
(** * The exponentially weighted kernel follows the EMA recurrence *)
(* ================================================================== *)

Lemma alpha_of_span_eq (span : Z) :
  (1 <= span)%Z -> alpha_of_span span == alpha span.
Proof.
  intros H. unfold alpha_of_span, alpha.
  assert (Hq : 1 <= inject_Z span)
    by (change 1 with (inject_Z 1); rewrite <- Zle_Qle; exact H).
  field. lra.
Qed.

Lemma ewm_loop_finite (a a' : Q) (S : list Q) :
  a == a' ->
  forall (w w' : Q) (n : Z),
  w == w' -> (1 <= n)%Z ->
  exists E : list Q,
    ewm_loop a 1 {| weighted := Some w; old_wt := 1; ewm_nobs := n |}
      (map Some S) = map Fin E /\
    Forall2 Qeq E (ema_from a' w' S).
Proof.
  intros Ha. induction S as [|c S IH]; intros w w' n Hw Hn.
  - exists []. split; [reflexivity|constructor].
  - cbn [map ewm_loop ewm_next weighted old_wt ewm_nobs].
    set (w1 := if Qeq_bool w c then w
               else (1 * (1 - a) * w + a * c) / (1 * (1 - a) + a)).
    assert (Hw1 : w1 == a' * c + (1 - a') * w').
    { unfold w1. destruct (Qeq_bool w c) eqn:E.
      - apply Qeq_bool_iff in E. rewrite <- Hw, E. ring.
      - rewrite Ha, Hw. field. lra. }
    destruct (IH w1 (a' * c + (1 - a') * w') (n + 1)%Z Hw1 ltac:(lia))
      as (E & HE & HF).
    exists (w1 :: E). split.
    + cbn [map]. rewrite HE. f_equal.
      unfold ewm_out. cbn [ewm_nobs weighted of_kernel].
      replace (1 <=? n + 1)%Z with true by (symmetry; apply Z.leb_le; lia).
      reflexivity.
    + cbn [ema_from]. constructor; assumption.
Qed.

(** On a series without missing values the kernel returns finite values
    that satisfy the specification's recurrence. *)
Lemma ewm_kernel_finite (a a' : Q) (S : list Q) :
  a == a' ->
  exists E : list Q,
    ewm_kernel a 1 (map Some S) = map Fin E /\
    Forall2 Qeq E (ema_spec a' S) /\
    hd_error E = hd_error S.
Proof.
  intros Ha. destruct S as [|c S].
  - exists []. repeat split; constructor.
  - destruct (@ewm_loop_finite a a' S Ha c c 1%Z (Qeq_refl c) ltac:(lia))
      as (E & HE & HF).
    exists (c :: E). repeat split.
    + cbn [map ewm_kernel]. rewrite HE. reflexivity.
    + cbn [ema_spec]. constructor; [reflexivity|assumption].
Qed.

Lemma ewm_mean_finite (span : Z) (S : list Q) :
  (1 <= span)%Z ->
  exists E : list Q,
    ewm_mean span (map Fin S) = Ok (map Fin E) /\
    Forall2 Qeq E (ema_spec (alpha span) S) /\
    hd_error E = hd_error S.
Proof.
  intros Hs.
  destruct (@ewm_kernel_finite (alpha_of_span span) (alpha span) S
              (alpha_of_span_eq Hs)) as (E & HE & HF & Hh).
  exists E. repeat split; try assumption.
  unfold ewm_mean.
  replace (span <? 1)%Z with false by (symmetry; apply Z.ltb_ge; lia).
  now rewrite prep_values_fin, HE.
Qed.

Lemma ema_from_length (a prev : Q) (S : list Q) :
  length (ema_from a prev S) = length S.
Proof.
  revert prev; induction S as [|c S IH]; intros prev; simpl;
    [reflexivity | now rewrite IH].
Qed.

Lemma ema_spec_length (a : Q) (S : list Q) :
  length (ema_spec a S) = length S.
Proof. destruct S; simpl; [reflexivity | now rewrite ema_from_length]. Qed.



Lemma nth_map_Fin (E : list Q) (i : nat) :
  (i < length E)%nat -> nth i (map Fin E) NaN = Fin (nth i E 0).
Proof.
  intros Hi. rewrite (nth_indep _ NaN (Fin 0)) by now rewrite length_map.
  apply map_nth.
Qed.

(* ================================================================== *)
(** * C3: the EMA column *)
(* ================================================================== *)




(* ================================================================== *)
(** * C6: the MACD and Signal columns *)
(* ================================================================== *)

Lemma sub_fin (A B : list Q) :
  sub (map Fin A) (map Fin B) = map Fin (map2 Qminus A B).
Proof.
  revert B; induction A as [|a A IH]; intros [|b B]; try reflexivity.
  cbn [map sub map2]. f_equal. apply IH.
Qed.

Lemma map2_Qminus_compat (A A' B B' : list Q) :
  Forall2 Qeq A A' -> Forall2 Qeq B B' ->
  Forall2 Qeq (map2 Qminus A B) (map2 Qminus A' B').
Proof.
  intros HA; revert B B'.
  induction HA as [|a a' A A' Ha _ IH]; intros B B' HB.
  - constructor.
  - destruct HB as [|b b' B B' Hb HB]; cbn [map2]; constructor.
    + rewrite Ha, Hb. reflexivity.
    + apply IH, HB.
Qed.

(** C6.  For every close series the MACD branch ignores the supplied
    period: its two EMAs have the fixed spans 12 and 26, the MACD column
    is their pointwise difference, and the Signal column is the EMA of
    span 9 of the MACD column, as recomputing that EMA on the MACD column
    shows. *)
Theorem macd_fixed_spans (df : DataFrame) (S : list Q) (period : Z) :
  getitem df "Close" = Ok (map Fin S) ->
  exists df' M G,
    indicator_columns MACD period df = Ok df' /\
    (forall period' : Z, indicator_columns MACD period' df = Ok df') /\
    getitem df' "MACD" = Ok (map Fin M) /\
    getitem df' "Signal" = Ok (map Fin G) /\
    Forall2 Qeq M
      (map2 Qminus (ema_spec (alpha 12) S) (ema_spec (alpha 26) S)) /\
    ewm_mean 9 (map Fin M) = Ok (map Fin G) /\
    Forall2 Qeq G (ema_spec (alpha 9) M).
Proof.
  intros Hclose.
  destruct (@ewm_mean_finite 12 S ltac:(lia)) as (E12 & H12 & HF12 & _).
  destruct (@ewm_mean_finite 26 S ltac:(lia)) as (E26 & H26 & HF26 & _).
  set (M := map2 Qminus E12 E26).
  destruct (@ewm_mean_finite 9 M ltac:(lia)) as (G & HG & HFG & _).
  set (df1 := setitem df "MACD" (map Fin M)).
  assert (Hrun : forall p : Z,
            indicator_columns MACD p df = Ok (setitem df1 "Signal" (map Fin G))).
  { intros p. unfold indicator_columns, ema12, ema26.
    rewrite Hclose. cbn [bind]. rewrite H12, H26. cbn [bind].
    rewrite sub_fin. fold M. fold df1.
    unfold df1 at 1. rewrite getitem_setitem_same. cbn [bind].
    rewrite HG. reflexivity. }
  exists (setitem df1 "Signal" (map Fin G)), M, G.
  repeat split; try assumption.
  - apply Hrun.
  - rewrite getitem_setitem_other by discriminate.
    apply getitem_setitem_same.
  - apply getitem_setitem_same.
  - apply map2_Qminus_compat; assumption.
Qed.

Lemma macd_fixed_spans_witness :
  exists df' M G,
    indicator_columns MACD 14
      {| index := [1; 2; 3]%Z;
         columns := [("Close"%string, map Fin [100; 102; 104])] |} = Ok df' /\
    (forall period' : Z,
       indicator_columns MACD period'
         {| index := [1; 2; 3]%Z;
            columns := [("Close"%string, map Fin [100; 102; 104])] |}
       = Ok df') /\
    getitem df' "MACD" = Ok (map Fin M) /\
    getitem df' "Signal" = Ok (map Fin G) /\
    Forall2 Qeq M
      (map2 Qminus (ema_spec (alpha 12) [100; 102; 104])
                   (ema_spec (alpha 26) [100; 102; 104])) /\
    ewm_mean 9 (map Fin M) = Ok (map Fin G) /\
    Forall2 Qeq G (ema_spec (alpha 9) M).
Proof.
  apply (@macd_fixed_spans
           {| index := [1; 2; 3]%Z;
              columns := [("Close"%string, map Fin [100; 102; 104])] |}
           [100; 102; 104] 14).
  reflexivity.
Defined.

(* ================================================================== *)
(** * The RSI branch: gains, losses and their rolling means *)
(* ================================================================== *)

Lemma where_gt_scalar (s : Series) (c o : float64) :
  where_ s (gt_scalar s c) o = map (fun x => if fgt x c then x else o) s.
Proof.
  unfold where_, gt_scalar. induction s as [|x s IH]; cbn [map map2];
    [reflexivity | now rewrite IH].
Qed.

Lemma where_lt_scalar (s : Series) (c o : float64) :
  where_ s (lt_scalar s c) o = map (fun x => if flt x c then x else o) s.
Proof.
  unfold where_, lt_scalar. induction s as [|x s IH]; cbn [map map2];
    [reflexivity | now rewrite IH].
Qed.

Lemma gain_input (close : Series) :
  where_ (delta close) (gt_scalar (delta close) (Fin 0)) (Fin 0)
  = map gain_elt (delta close).
Proof. apply where_gt_scalar. Qed.

Lemma loss_input (close : Series) :
  neg (where_ (delta close) (lt_scalar (delta close) (Fin 0)) (Fin 0))
  = map loss_elt (delta close).
Proof. unfold neg. rewrite where_lt_scalar, map_map. reflexivity. Qed.

Lemma diff_from_length (prev : float64) (s : Series) :
  length (diff_from prev s) = length s.
Proof.
  revert prev; induction s as [|x s IH]; intros prev; simpl;
    [reflexivity | now rewrite IH].
Qed.

Lemma delta_length (close : Series) : length (delta close) = length close.
Proof.
  unfold delta, diff. destruct close; simpl;
    [reflexivity | now rewrite diff_from_length].
Qed.

(** ** Every observation entering the two rolling means is non-negative *)











(** ** The RSI value obtained from an average gain and an average loss *)

Lemma rsi_value_nan_l (l : float64) : rsi_value NaN l = NaN.
Proof. reflexivity. Qed.

Lemma rsi_value_nan_r (g : float64) : rsi_value g NaN = NaN.
Proof. destruct g; reflexivity. Qed.

(** a zero average loss under a positive average gain: the quotient is
    [+inf] and the value 100, no error being raised *)
Lemma rsi_value_zero_loss (a b : Q) :
  b == 0 -> 0 < a ->
  fdiv (Fin a) (Fin b) = PInf /\ rsi_value (Fin a) (Fin b) = Fin 100.
Proof.
  intros Hb Ha. unfold rsi_value. cbn [fdiv].
  apply Qeq_bool_iff in Hb. rewrite Hb.
  apply Qgt_alt in Ha. rewrite Ha. split; reflexivity.
Qed.



Lemma rsi_nth (g l : Series) (i : nat) :
  length g = length l ->
  nth i (rsub (Fin 100) (rdiv (Fin 100) (radd (Fin 1) (div g l)))) NaN
  = rsi_value (nth i g NaN) (nth i l NaN).
Proof.
  unfold rsub, rdiv, radd, div. revert l i.
  induction g as [|x g IH]; intros [|y l] i Hlen; try discriminate.
  - destruct i; reflexivity.
  - destruct i as [|i]; cbn [map2 map nth]; [reflexivity|].
    apply IH. simpl in Hlen. congruence.
Qed.

Lemma rolling_mean_length (period : Z) (s out : Series) :
  rolling_mean period s = Ok out -> length out = length s.
Proof.
  unfold rolling_mean. destruct (period <? 0)%Z; [discriminate|].
  intros [= <-]. rewrite roll_mean_length. unfold prep_values.
  apply length_map.
Qed.

Lemma gain_length (period : Z) (close g : Series) :
  gain period close = Ok g -> length g = length close.
Proof.
  unfold gain. rewrite gain_input. intros H.
  rewrite (rolling_mean_length _ _ H), length_map. apply delta_length.
Qed.

Lemma loss_length (period : Z) (close l : Series) :
  loss period close = Ok l -> length l = length close.
Proof.
  unfold loss. rewrite loss_input. intros H.
  rewrite (rolling_mean_length _ _ H), length_map. apply delta_length.
Qed.

(** the RSI column is, bar by bar, the RSI value of the two averages *)
Lemma rsi_inv (period : Z) (close r : Series) :
  rsi period close = Ok r ->
  exists g l,
    gain period close = Ok g /\ loss period close = Ok l /\
    length r = length close /\
    forall i, nth i r NaN = rsi_value (nth i g NaN) (nth i l NaN).
Proof.
  unfold rsi. destruct (gain period close) as [g|e] eqn:Hg; [|discriminate].
  destruct (loss period close) as [l|e] eqn:Hl; [|discriminate].
  cbn [bind]. intros [= <-]. exists g, l.
  pose proof (gain_length _ _ Hg) as Lg.
  pose proof (loss_length _ _ Hl) as Ll.
  repeat split.
  - unfold rsub, rdiv, radd, div. rewrite !length_map.
    clear Hg Hl. revert l Ll Lg. generalize (length close) as n.
    induction g as [|x g IH]; intros n [|y l] Ll Lg; simpl in *; try congruence.
    destruct n as [|n]; [discriminate|]. f_equal. apply IH; congruence.
  - intros i. apply rsi_nth. congruence.
Qed.

(** ** Gains and losses of a series without missing values *)

Lemma diff_from_fin (prev : Q) (cs : list Q) :
  diff_from (Fin prev) (map Fin cs) = map Fin (qdiff_from prev cs).
Proof.
  revert prev; induction cs as [|x cs IH]; intros prev; cbn [map diff_from qdiff_from];
    [reflexivity|].
  rewrite IH. reflexivity.
Qed.

Lemma gain_elt_fin (d : Q) : gain_elt (Fin d) = Fin (pos_part d).
Proof.
  unfold gain_elt, pos_part. cbn [fgt]. destruct (d ?= 0); reflexivity.
Qed.

Lemma loss_elt_fin (d : Q) : loss_elt (Fin d) = Fin (loss_q d).
Proof.
  unfold loss_elt, flt, loss_q. cbn [fgt]. destruct (0 ?= d); reflexivity.
Qed.

Lemma gain_input_fin (cs : list Q) :
  map gain_elt (delta (map Fin cs)) = map Fin (gains_q cs).
Proof.
  destruct cs as [|c t]; [reflexivity|].
  unfold delta. cbn [map diff gains_q]. rewrite diff_from_fin, !map_map.
  f_equal. apply map_ext. intros d. apply gain_elt_fin.
Qed.

Lemma loss_input_fin (cs : list Q) :
  map loss_elt (delta (map Fin cs)) = map Fin (losses_q cs).
Proof.
  destruct cs as [|c t]; [reflexivity|].
  unfold delta. cbn [map diff losses_q]. rewrite diff_from_fin, !map_map.
  f_equal. apply map_ext. intros d. apply loss_elt_fin.
Qed.

Lemma qdiff_from_length (prev : Q) (cs : list Q) :
  length (qdiff_from prev cs) = length cs.
Proof.
  revert prev; induction cs as [|x cs IH]; intros prev; simpl;
    [reflexivity | now rewrite IH].
Qed.

Lemma qdiff_from_nth (cs : list Q) :
  forall (prev : Q) (j : nat), (j < length cs)%nat ->
  nth j (qdiff_from prev cs) 0
  = nth j cs 0 - match j with O => prev | S k => nth k cs 0 end.
Proof.
  induction cs as [|x cs IH]; intros prev j Hj; simpl in Hj; [lia|].
  destruct j as [|j]; cbn [qdiff_from nth]; [reflexivity|].
  rewrite IH by lia. destruct j; reflexivity.
Qed.

Lemma gains_q_length (cs : list Q) : length (gains_q cs) = length cs.
Proof.
  destruct cs; simpl; [reflexivity|].
  now rewrite length_map, qdiff_from_length.
Qed.

Lemma losses_q_length (cs : list Q) : length (losses_q cs) = length cs.
Proof.
  destruct cs; simpl; [reflexivity|].
  now rewrite length_map, qdiff_from_length.
Qed.

Lemma gains_q_nth (cs : list Q) (j : nat) :
  (j < length cs)%nat -> nth j (gains_q cs) 0 == bar_gain cs j.
Proof.
  intros Hj. destruct cs as [|c t]; simpl in Hj; [lia|].
  destruct j as [|j]; [reflexivity|].
  cbn [gains_q nth bar_gain].
  change 0 with (pos_part 0) at 1. rewrite map_nth.
  rewrite qdiff_from_nth by lia. destruct j; reflexivity.
Qed.

Lemma loss_q_spec (d e : Q) : e == - d -> loss_q d == pos_part e.
Proof.
  intros He. unfold loss_q, pos_part.
  destruct (0 ?= d) eqn:C1; destruct (e ?= 0) eqn:C2;
    first [apply Qeq_alt in C1 | apply Qlt_alt in C1 | apply Qgt_alt in C1];
    first [apply Qeq_alt in C2 | apply Qlt_alt in C2 | apply Qgt_alt in C2];
    lra.
Qed.

Lemma losses_q_nth (cs : list Q) (j : nat) :
  (j < length cs)%nat -> nth j (losses_q cs) 0 == bar_loss cs j.
Proof.
  intros Hj. destruct cs as [|c t]; simpl in Hj; [lia|].
  destruct j as [|j]; [reflexivity|].
  cbn [losses_q nth bar_loss].
  rewrite (nth_indep _ 0 (loss_q 0))
    by (rewrite length_map, qdiff_from_length; lia).
  rewrite map_nth. apply loss_q_spec.
  rewrite qdiff_from_nth by lia. destruct j; cbn [nth]; ring.
Qed.

Lemma Qsum_map_ext (f g : nat -> Q) (l : list nat) :
  (forall j, In j l -> f j == g j) -> Qsum (map f l) == Qsum (map g l).
Proof.
  induction l as [|x l IH]; intros H; cbn [map Qsum]; [reflexivity|].
  rewrite (H x) by (left; reflexivity).
  rewrite IH by (intros j Hj; apply H; right; exact Hj). reflexivity.
Qed.

Lemma window_mean_ext (f g : nat -> Q) (p i : nat) :
  (p <= i + 1)%nat ->
  (forall j, (j <= i)%nat -> f j == g j) ->
  window_mean f p i == window_mean g p i.
Proof.
  intros Hp H. unfold window_mean, window.
  rewrite (Qsum_map_ext f g).
  - reflexivity.
  - intros j Hj. apply in_seq in Hj. apply H. lia.
Qed.

(* ================================================================== *)
(** * C5: bounds of the RSI column *)
(* ================================================================== *)



(* ================================================================== *)
(** * C4: where the RSI column is defined *)
(* ================================================================== *)

Lemma gain_fin (period : Z) (cs : list Q) :
  (0 <= period)%Z ->
  gain period (map Fin cs)
  = Ok (roll_mean (map Some (gains_q cs)) (Z.to_nat period)).
Proof.
  intros Hp. unfold gain. rewrite gain_input, gain_input_fin.
  unfold rolling_mean.
  replace (period <? 0)%Z with false by (symmetry; apply Z.ltb_ge; lia).
  now rewrite prep_values_fin.
Qed.

Lemma loss_fin (period : Z) (cs : list Q) :
  (0 <= period)%Z ->
  loss period (map Fin cs)
  = Ok (roll_mean (map Some (losses_q cs)) (Z.to_nat period)).
Proof.
  intros Hp. unfold loss. rewrite loss_input, loss_input_fin.
  unfold rolling_mean.
  replace (period <? 0)%Z with false by (symmetry; apply Z.ltb_ge; lia).
  now rewrite prep_values_fin.
Qed.




(* ================================================================== *)
(** * Pruning incomplete rows *)
(* ================================================================== *)

Lemma In_assign (name : string) (s : Series) (cols : list (string * Series)) :
  In (name, s) (assign name s cols).
Proof.
  induction cols as [|[n c] cols IH]; simpl; [left; reflexivity|].
  destruct (String.eqb n name) eqn:E.
  - apply String.eqb_eq in E. subst n. left; reflexivity.
  - right. exact IH.
Qed.

Lemma filter_none {A : Type} (f : A -> bool) (l : list A) :
  (forall x, In x l -> f x = false) -> filter f l = [].
Proof.
  induction l as [|x l IH]; intros H; simpl; [reflexivity|].
  rewrite (H x) by (left; reflexivity).
  apply IH. intros y Hy. apply H. right. exact Hy.
Qed.

Lemma row_complete_iff (cols : list (string * Series)) (i : nat) :
  row_complete cols i = true <->
  forall name col, In (name, col) cols -> nth i col NaN <> NaN.
Proof.
  unfold row_complete. rewrite forallb_forall. split.
  - intros H name col Hin Hnan. specialize (H _ Hin). cbn [snd] in H.
    rewrite Hnan in H. discriminate.
  - intros H [name col] Hin. cbn [snd].
    specialize (H name col Hin). destruct (nth i col NaN); try reflexivity.
    contradiction.
Qed.


Lemma lookup_dropna (name : string) (rows : list nat)
    (cols : list (string * Series)) :
  lookup name (map (fun c => (fst c, take NaN rows (snd c))) cols)
  = option_map (take NaN rows) (lookup name cols).
Proof.
  induction cols as [|[n c] cols IH]; simpl; [reflexivity|].
  destruct (String.eqb n name); [reflexivity | exact IH].
Qed.


(* ================================================================== *)
(** * C8: SMA with a period that is not positive or exceeds the series *)
(* ================================================================== *)




(* ================================================================== *)
(** * C7: what the [indicator] command emits *)
(* ================================================================== *)

Lemma indicator_columns_inv (t : IndicatorType) (period : Z)
    (df merged : DataFrame) :
  indicator_columns t period df = Ok merged ->
  index merged = index df /\
  (forall name, ~ In name (new_columns t) ->
     lookup name (columns merged) = lookup name (columns df)) /\
  (forall name, In name (new_columns t) ->
     exists s, lookup name (columns merged) = Some s).
Proof.
  unfold indicator_columns.
  destruct (getitem df "Close") as [close|e]; [cbn [bind] | destruct t; discriminate].
  destruct t.
  - destruct (rolling_mean period close) as [s|e]; [|discriminate].
    cbn [bind]. intros [= <-]. cbn [setitem index columns new_columns].
    repeat split.
    + intros name Hn. apply lookup_assign_other. intros ->. apply Hn. now left.
    + intros name [<-|[]]. eexists. apply lookup_assign_same.
  - destruct (ewm_mean period close) as [s|e]; [|discriminate].
    cbn [bind]. intros [= <-]. cbn [setitem index columns new_columns].
    repeat split.
    + intros name Hn. apply lookup_assign_other. intros ->. apply Hn. now left.
    + intros name [<-|[]]. eexists. apply lookup_assign_same.
  - destruct (rsi period close) as [s|e]; [|discriminate].
    cbn [bind]. intros [= <-]. cbn [setitem index columns new_columns].
    repeat split.
    + intros name Hn. apply lookup_assign_other. intros ->. apply Hn. now left.
    + intros name [<-|[]]. eexists. apply lookup_assign_same.
  - destruct (ema12 close) as [e12|e]; [|discriminate]. cbn [bind].
    destruct (ema26 close) as [e26|e]; [|discriminate]. cbn [bind].
    rewrite getitem_setitem_same. cbn [bind].
    destruct (ewm_mean 9 (sub e12 e26)) as [sg|e]; [|discriminate].
    cbn [bind]. intros [= <-]. cbn [setitem index columns new_columns].
    repeat split.
    + intros name Hn.
      rewrite !lookup_assign_other; [reflexivity | |];
        intros ->; apply Hn; simpl; auto.
    + intros name [<-|[<-|[]]].
      * eexists. rewrite lookup_assign_other by discriminate.
        apply lookup_assign_same.
      * eexists. apply lookup_assign_same.
Qed.

(** C7 (as amended).  Whenever the command succeeds, the emitted result is
    the input table with the indicator merged as named columns (every
    column under another name is the input's), from which exactly the
    rows holding an undefined value in some column, new or not, are
    dropped; the rows that remain keep their order and, in every column,
    their values. *)
Theorem indicator_emits_complete_rows (t : IndicatorType) (symbol : string)
    (period : Z) (df out : DataFrame) :
  indicator t symbol period df = Ok out ->
  exists (merged : DataFrame) (keep : nat -> bool),
    indicator_columns t period df = Ok merged /\
    index merged = index df /\
    (forall name, ~ In name (new_columns t) ->
       lookup name (columns merged) = lookup name (columns df)) /\
    (forall name, In name (new_columns t) ->
       exists s, lookup name (columns merged) = Some s) /\
    (forall i, keep i = true <->
       forall name col, In (name, col) (columns merged) ->
                        nth i col NaN <> NaN) /\
    let rows := filter keep (seq 0 (length (index df))) in
    index out = take 0%Z rows (index df) /\
    forall name,
      lookup name (columns out)
      = option_map (take NaN rows) (lookup name (columns merged)).
Proof.
  unfold indicator.
  destruct (indicator_columns t period df) as [merged|e] eqn:Hm;
    [|discriminate].
  cbn [bind]. intros [= <-].
  destruct (indicator_columns_inv _ _ _ Hm) as (Hidx & Hold & Hnew).
  exists merged, (row_complete (columns merged)).
  split; [reflexivity|]. split; [exact Hidx|].
  split; [exact Hold|]. split; [exact Hnew|].
  split; [intros i; apply row_complete_iff|].
  cbn zeta. unfold dropna, kept_rows. cbn [index columns].
  rewrite Hidx. split; [reflexivity|].
  intros name. apply lookup_dropna.
Qed.

Lemma indicator_emits_complete_rows_witness :
  exists (merged : DataFrame) (keep : nat -> bool),
    indicator_columns EMA 2
      {| index := [1; 2]%Z;
         columns := [("Close"%string, [Fin 100; Fin 102]);
                     ("Adj Close"%string, [NaN; Fin 5])] |} = Ok merged /\
    index merged = [1; 2]%Z /\
    (forall name, ~ In name (new_columns EMA) ->
       lookup name (columns merged)
       = lookup name [("Close"%string, [Fin 100; Fin 102]);
                      ("Adj Close"%string, [NaN; Fin 5])]) /\
    (forall name, In name (new_columns EMA) ->
       exists s, lookup name (columns merged) = Some s) /\
    (forall i, keep i = true <->
       forall name col, In (name, col) (columns merged) ->
                        nth i col NaN <> NaN) /\
    let rows := filter keep (seq 0 2) in
    index
      {| index := [2]%Z;
         columns := [("Close"%string, [Fin 102]);
                     ("Adj Close"%string, [Fin 5]);
                     ("EMA"%string, [Fin (8208 # 81)])] |}
    = take 0%Z rows [1; 2]%Z /\
    forall name,
      lookup name
        (columns
           {| index := [2]%Z;
              columns := [("Close"%string, [Fin 102]);
                          ("Adj Close"%string, [Fin 5]);
                          ("EMA"%string, [Fin (8208 # 81)])] |})
      = option_map (take NaN rows) (lookup name (columns merged)).
Proof.
  apply (@indicator_emits_complete_rows EMA "X" 2
           {| index := [1; 2]%Z;
              columns := [("Close"%string, [Fin 100; Fin 102]);
                          ("Adj Close"%string, [NaN; Fin 5])] |}).
  vm_compute. reflexivity.
Defined.

(** C7, as stated, fails: a row whose new column is defined is dropped
    all the same when a column of the input is undefined on it. *)
Lemma complete_new_column_row_dropped :
  exists merged ema out,
    indicator_columns EMA 2
      {| index := [1; 2]%Z;
         columns := [("Close"%string, [Fin 100; Fin 102]);
                     ("Adj Close"%string, [NaN; Fin 5])] |} = Ok merged /\
    getitem merged "EMA" = Ok ema /\
    nth 0 ema NaN = Fin 100 /\
    indicator EMA "X" 2
      {| index := [1; 2]%Z;
         columns := [("Close"%string, [Fin 100; Fin 102]);
                     ("Adj Close"%string, [NaN; Fin 5])] |} = Ok out /\
    index out = [2]%Z.
Proof.
  eexists. eexists. eexists.
  split; [vm_compute; reflexivity|].
  split; [vm_compute; reflexivity|].
  split; [reflexivity|].
  split; [vm_compute; reflexivity|].
  reflexivity.
Qed.

(* ================================================================== *)
(** * Lines evaluated in batch *)
(* ================================================================== *)

Lemma fill_length (n minp : nat) (f : nat -> option Q) :
  length (array (fill n minp f)) = n.
Proof. unfold fill; cbn [array]. now rewrite length_map, length_seq. Qed.

Lemma fill_at (n minp : nat) (f : nat -> option Q) (i : nat) :
  (i < n)%nat ->
  at_ (array (fill n minp f)) i = if (i <? minp - 1)%nat then None else f i.
Proof.
  intros Hi. unfold at_, fill; cbn [array].
  now rewrite nth_map_seq by exact Hi.
Qed.

Lemma once_short (n minp : nat) (f : nat -> option Q) :
  (n < minp)%nat -> once n minp f = Err IndexError.
Proof.
  intros H. unfold once.
  now replace (n <? minp)%nat with true by (symmetry; apply Nat.ltb_lt; lia).
Qed.

Lemma once_enough (n minp : nat) (f : nat -> option Q) :
  (minp <= n)%nat -> once n minp f = Ok (fill n minp f).
Proof.
  intros H. unfold once.
  now replace (n <? minp)%nat with false by (symmetry; apply Nat.ltb_ge; lia).
Qed.

Lemma truthy_of_bool (b : bool) : truthy (of_bool b) = b.
Proof. destruct b; reflexivity. Qed.

Lemma fsum_Qsum (l : list Q) : fsum l == Qsum l.
Proof.
  unfold fsum. assert (H : forall a, fold_left Qplus l a == a + Qsum l).
  { induction l as [|x l IH]; intros a; cbn [fold_left Qsum]; [lra|].
    rewrite IH. lra. }
  rewrite H. lra.
Qed.

(** A simple moving average over at least [period] values holds, from
    slot [period - 1] on, the mean of the last [period] values. *)
Lemma SimpleMovingAverage_enough (src : list Q) (period : nat) :
  (1 <= period)%nat -> (period <= length src)%nat ->
  exists l,
    SimpleMovingAverage src period = Ok l /\
    minperiod l = period /\
    length (array l) = length src /\
    forall i, (period - 1 <= i)%nat -> (i < length src)%nat ->
      exists v, at_ (array l) i = Some v /\
                v == window_mean (close_at src) period i.
Proof.
  intros Hp Hn. unfold SimpleMovingAverage. rewrite once_enough by exact Hn.
  eexists. split; [reflexivity|]. split; [reflexivity|].
  split; [apply fill_length|].
  intros i Hlo Hi. rewrite fill_at by exact Hi.
  replace (i <? period - 1)%nat with false
    by (symmetry; apply Nat.ltb_ge; lia).
  eexists. split; [reflexivity|].
  rewrite fsum_Qsum. unfold window_mean, window.
  pose proof (@slice_seq _ 0 src (i + 1 - period) period) as E.
  replace (i + 1 - period + period)%nat with (i + 1)%nat in E by lia.
  rewrite E by lia. reflexivity.
Qed.

Lemma SimpleMovingAverage_short (src : list Q) (period : nat) :
  (length src < period)%nat -> SimpleMovingAverage src period = Err IndexError.
Proof. intros H. unfold SimpleMovingAverage. now apply once_short. Qed.

(** ** The crossover of two lines *)

Section Cross.

Variables data0 data1 : Line.

Let n := length (array data0).
Let mp := Nat.max (minperiod data0) (minperiod data1).

Lemma CrossBase_short (crossup : bool) :
  (n < mp + 1)%nat -> CrossBase crossup data0 data1 = Err IndexError.
Proof.
  intros H. unfold CrossBase, NonZeroDifference. fold n. fold mp.
  destruct (Nat.ltb_spec n mp) as [Hlt|Hge]; [reflexivity|].
  cbn [bind minperiod]. rewrite once_short by lia. reflexivity.
Qed.

Lemma CrossBase_enough (crossup : bool) :
  (mp + 1 <= n)%nat ->
  exists l,
    CrossBase crossup data0 data1 = Ok l /\
    minperiod l = (mp + 1)%nat /\
    length (array l) = n /\
    forall i, (mp <= i)%nat -> (i < n)%nat ->
      exists before : bool,
        at_ (array l) i
        = of_bool (before &&
                   (if crossup
                    then ogt (at_ (array data0) i) (at_ (array data1) i)
                    else olt (at_ (array data0) i) (at_ (array data1) i))).
Proof.
  intros H. unfold CrossBase, NonZeroDifference. fold n. fold mp.
  replace (n <? mp)%nat with false by (symmetry; apply Nat.ltb_ge; lia).
  cbn [bind minperiod].
  rewrite (once_enough _ (n := n) (minp := (mp + 1)%nat)) by lia.
  cbn [bind fill minperiod].
  rewrite (once_enough _ (n := n) (minp := (mp + 1)%nat)) by lia.
  cbn [bind].
  rewrite (once_enough _ (n := n) (minp := mp)) by lia.
  cbn [bind fill minperiod].
  rewrite once_enough by lia.
  eexists. split; [reflexivity|].
  split; [cbn [fill minperiod]; lia|].
  split; [apply fill_length|].
  intros i Hlo Hi. rewrite fill_at by exact Hi.
  replace (i <? Nat.max (mp + 1) mp - 1)%nat with false
    by (symmetry; apply Nat.ltb_ge; lia).
  change (map (fun i0 => if (i0 <? mp + 1 - 1)%nat then None else ?f i0)
              (seq 0 n)) with (array (fill n (mp + 1) f)).
  eexists.
  match goal with
  | |- of_bool (truthy (at_ ?a i) && truthy (at_ ?b i)) = _ =>
      change a with (array (fill n (mp + 1)
        (fun i => of_bool (if crossup
           then olt (at_ (array (fill n (mp + 1)
                  (fun i => at_ (nzd_array mp (array data0) (array data1))
                                (i - 1)))) i) (Some 0)
           else ogt (at_ (array (fill n (mp + 1)
                  (fun i => at_ (nzd_array mp (array data0) (array data1))
                                (i - 1)))) i) (Some 0)))));
      change b with (array (fill n mp
        (fun i => of_bool (if crossup
           then ogt (at_ (array data0) i) (at_ (array data1) i)
           else olt (at_ (array data0) i) (at_ (array data1) i)))))
  end.
  rewrite !fill_at by exact Hi.
  replace (i <? mp + 1 - 1)%nat with false
    by (symmetry; apply Nat.ltb_ge; lia).
  replace (i <? mp - 1)%nat with false
    by (symmetry; apply Nat.ltb_ge; lia).
  rewrite !truthy_of_bool. reflexivity.
Qed.

End Cross.

Lemma CrossOver_short (data0 data1 : Line) :
  (length (array data0)
   < Nat.max (minperiod data0) (minperiod data1) + 1)%nat ->
  CrossOver data0 data1 = Err IndexError.
Proof.
  intros H. unfold CrossOver. now rewrite CrossBase_short by exact H.
Qed.

(** With enough bars the crossover line is, from its minimum period on,
    the difference of an upward and a downward crossing flag, the first
    of which requires [data0 > data1] and the second [data0 < data1]. *)
Lemma CrossOver_enough (data0 data1 : Line) :
  let n := length (array data0) in
  let mp := Nat.max (minperiod data0) (minperiod data1) in
  (mp + 1 <= n)%nat ->
  exists l,
    CrossOver data0 data1 = Ok l /\
    minperiod l = (mp + 1)%nat /\
    length (array l) = n /\
    forall i, (mp <= i)%nat -> (i < n)%nat ->
      exists bu bd : bool,
        at_ (array l) i
        = osub
            (of_bool (bu && ogt (at_ (array data0) i) (at_ (array data1) i)))
            (of_bool (bd && olt (at_ (array data0) i) (at_ (array data1) i))).
Proof.
  intros n mp H.
  destruct (CrossBase_enough data0 data1 true H) as (up & Hup & Hmu & Hlu & Hau).
  destruct (CrossBase_enough data0 data1 false H) as (dn & Hdn & Hmd & Hld & Had).
  unfold CrossOver. rewrite Hup, Hdn. cbn [bind]. rewrite Hmu, Hmd.
  fold n. fold mp.
  rewrite once_enough by lia.
  eexists. split; [reflexivity|].
  split; [cbn [fill minperiod]; lia|].
  split; [apply fill_length|].
  intros i Hlo Hi. rewrite fill_at by exact Hi.
  replace (i <? Nat.max (mp + 1) (mp + 1) - 1)%nat with false
    by (symmetry; apply Nat.ltb_ge; lia).
  destruct (Hau i Hlo Hi) as (bu & ->).
  destruct (Had i Hlo Hi) as (bd & ->).
  exists bu, bd. reflexivity.
Qed.

Lemma cross_sign (u d : bool) :
  (ogt (osub (of_bool u) (of_bool d)) (Some 0) = true -> u = true) /\
  (olt (osub (of_bool u) (of_bool d)) (Some 0) = true -> d = true).
Proof. destruct u, d; split; intros H; try reflexivity; discriminate H. Qed.

(* ================================================================== *)
(** * The strategy's indicators *)
(* ================================================================== *)

Lemma init_short (data : list Bar) :
  (length data < 201)%nat -> init params data = Err IndexError.
Proof.
  intros H. unfold init, params. cbn [short_period long_period].
  destruct (Nat.lt_ge_cases (length data) 50) as [H50|H50].
  { rewrite SimpleMovingAverage_short by (rewrite length_map; lia).
    reflexivity. }
  destruct (@SimpleMovingAverage_enough (map close data) 50)
    as (s & -> & Hms & Hls & _); try (rewrite ?length_map; lia).
  cbn [bind].
  destruct (Nat.lt_ge_cases (length data) 200) as [H200|H200].
  { rewrite SimpleMovingAverage_short by (rewrite length_map; lia).
    reflexivity. }
  destruct (@SimpleMovingAverage_enough (map close data) 200)
    as (l & -> & Hml & Hll & _); try (rewrite ?length_map; lia).
  cbn [bind].
  rewrite CrossOver_short; [reflexivity|].
  rewrite Hms, Hml, Hls, length_map. simpl. lia.
Qed.

Lemma init_enough (data : list Bar) :
  (201 <= length data)%nat ->
  exists strat,
    init params data = Ok strat /\
    history strat = [] /\
    strategy_minperiod strat = 201%nat /\
    (forall i, (49 <= i)%nat -> (i < length data)%nat ->
       exists v, at_ (array (short_ma strat)) i = Some v /\
                 v == window_mean (close_at (map close data)) 50 i) /\
    (forall i, (199 <= i)%nat -> (i < length data)%nat ->
       exists v, at_ (array (long_ma strat)) i = Some v /\
                 v == window_mean (close_at (map close data)) 200 i) /\
    (forall i, (200 <= i)%nat -> (i < length data)%nat ->
       (ogt (at_ (array (crossover strat)) i) (Some 0) = true ->
        ogt (at_ (array (short_ma strat)) i)
            (at_ (array (long_ma strat)) i) = true) /\
       (olt (at_ (array (crossover strat)) i) (Some 0) = true ->
        olt (at_ (array (short_ma strat)) i)
            (at_ (array (long_ma strat)) i) = true)).
Proof.
  intros H. unfold init, params. cbn [short_period long_period].
  destruct (@SimpleMovingAverage_enough (map close data) 50)
    as (s & -> & Hms & Hls & Has); try (rewrite ?length_map; lia).
  destruct (@SimpleMovingAverage_enough (map close data) 200)
    as (l & -> & Hml & Hll & Hal); try (rewrite ?length_map; lia).
  cbn [bind]. rewrite length_map in *.
  destruct (@CrossOver_enough s l) as (c & -> & Hmc & Hlc & Hac).
  { rewrite Hms, Hml, Hls. simpl. lia. }
  rewrite Hms, Hml, Hls in *. cbn [Nat.max] in Hmc, Hac.
  cbn [bind]. eexists. split; [reflexivity|].
  cbn [history short_ma long_ma crossover].
  split; [reflexivity|].
  split; [unfold strategy_minperiod; cbn [short_ma long_ma crossover];
          rewrite Hms, Hml, Hmc; reflexivity|].
  split; [intros i Hlo Hi; apply Has; lia|].
  split; [intros i Hlo Hi; apply Hal; lia|].
  intros i Hlo Hi.
  destruct (Hac i ltac:(simpl; lia) Hi) as (bu & bd & ->).
  split; intros Hx.
  - destruct (cross_sign
                (bu && ogt (at_ (array s) i) (at_ (array l) i))
                (bd && olt (at_ (array s) i) (at_ (array l) i))) as [Hu _].
    apply Hu in Hx. apply andb_true_iff in Hx. tauto.
  - destruct (cross_sign
                (bu && ogt (at_ (array s) i) (at_ (array l) i))
                (bd && olt (at_ (array s) i) (at_ (array l) i))) as [_ Hd].
    apply Hd in Hx. apply andb_true_iff in Hx. tauto.
Qed.

(* ================================================================== *)
(** * The run loop *)
(* ================================================================== *)

Section RunLoop.

Variable minp : nat.
Variable cross : list (option Q).

Lemma run_bars_length (bars : list Bar) :
  forall i b, length (run_bars minp cross i bars b) = length bars.
Proof.
  induction bars as [|bar rest IH]; intros i b; cbn [run_bars length];
    [reflexivity | now rewrite IH].
Qed.

(** the first bar sees the initial account once the broker has run *)
Lemma run_bars_first (bars : list Bar) (i : nat) (b : Broker)
    (bar : Bar) (e : Broker * option Order) :
  nth_error bars 0 = Some bar ->
  nth_error (run_bars minp cross i bars b) 0 = Some e ->
  fst e = broker_next b (open bar).
Proof.
  destruct bars as [|bar0 rest]; [discriminate|].
  cbn [run_bars nth_error]. intros [= ->] [= <-]. reflexivity.
Qed.

(** the order recorded on a bar is the strategy's decision on that bar *)
Lemma run_bars_order (bars : list Bar) :
  forall i b k e,
  nth_error (run_bars minp cross i bars b) k = Some e ->
  snd e = oncepost minp cross (i + k) (fst e).
Proof.
  induction bars as [|bar rest IH]; intros i b k e; cbn [run_bars].
  - destruct k; discriminate.
  - destruct k as [|k]; cbn [nth_error].
    + intros [= <-]. cbn [fst snd]. now rewrite Nat.add_0_r.
    + intros H. apply IH in H. rewrite H. f_equal. lia.
Qed.

(** the account seen on a bar is the previous one after the broker has
    processed, at this bar's open, the order issued on the previous bar *)
Lemma run_bars_next (bars : list Bar) :
  forall i b k e e' bar bar',
  nth_error (run_bars minp cross i bars b) k = Some e ->
  nth_error (run_bars minp cross i bars b) (S k) = Some e' ->
  nth_error bars k = Some bar ->
  nth_error bars (S k) = Some bar' ->
  fst e' = broker_next (submit (fst e) (snd e) (close bar)) (open bar').
Proof.
  induction bars as [|bar0 rest IH]; intros i b k e e' bar bar';
    cbn [run_bars].
  - destruct k; discriminate.
  - destruct k as [|k]; cbn [nth_error].
    + intros [= <-] He' [= <-] Hbar'. cbn [fst snd].
      apply (run_bars_first _ _ _ Hbar' He').
    + apply IH.
Qed.

Lemma broker_next_ok (b : Broker) (popen : Q) :
  account_ok b ->
  account_ok (broker_next b popen) /\ submitted (broker_next b popen) = None.
Proof.
  unfold account_ok, broker_next, stake. intros [Hpos Hsub].
  destruct (submitted b) as [[[|] created]|] eqn:E.
  - destruct (Qle_bool 0 (cash b - inject_Z 1 * created)
              && Qle_bool 0 (cash b - inject_Z 1 * popen));
      cbn [position submitted]; repeat split; try reflexivity; lia.
  - destruct (Qle_bool 0 (cash b + inject_Z 1 * created));
      cbn [position submitted]; repeat split; try reflexivity; lia.
  - rewrite E. repeat split; assumption.
Qed.

Lemma submit_ok (b : Broker) (i : nat) (pclose : Q) :
  account_ok b -> account_ok (submit b (oncepost minp cross i b) pclose).
Proof.
  unfold account_ok, submit, oncepost, next. intros [Hpos _].
  cbn [position submitted]. split; [exact Hpos|].
  destruct (minp <=? i + 1)%nat; [|exact I].
  destruct (Z.eqb_spec (position b) 0) as [H0|H0].
  - destruct (ogt (at_ cross i) (Some 0)); [exact H0 | exact I].
  - destruct (olt (at_ cross i) (Some 0)); cbn [option_map]; [lia | exact I].
Qed.

(** the account is always flat or long by one unit *)
Lemma run_bars_ok (bars : list Bar) :
  forall i b k e,
  account_ok b ->
  nth_error (run_bars minp cross i bars b) k = Some e ->
  account_ok (fst e).
Proof.
  induction bars as [|bar rest IH]; intros i b k e Hb; cbn [run_bars].
  - destruct k; discriminate.
  - destruct k as [|k]; cbn [nth_error].
    + intros [= <-]. cbn [fst]. apply broker_next_ok, Hb.
    + apply IH. apply submit_ok. apply broker_next_ok, Hb.
Qed.

End RunLoop.

(* ================================================================== *)
(** * The [backtest] command: when it runs *)
(* ================================================================== *)

Lemma backtest_short (strategy : StrategyChoice) (symbol : string)
    (data : list Bar) (output : string) :
  (length data < 201)%nat ->
  backtest strategy symbol data output = Err IndexError.
Proof.
  intros H. destruct strategy. unfold backtest.
  now rewrite init_short by exact H.
Qed.

Lemma backtest_inv (strategy : StrategyChoice) (symbol : string)
    (data : list Bar) (output : string) (strat : Strategy) :
  backtest strategy symbol data output = Ok strat ->
  (201 <= length data)%nat /\
  exists strat0,
    init params data = Ok strat0 /\
    strat = cerebro_run data strat0
              {| cash := initial_cash; position := 0; submitted := None |}.
Proof.
  destruct strategy. unfold backtest. intros H.
  destruct (Nat.lt_ge_cases (length data) 201) as [Hlt|Hge].
  - rewrite init_short in H by exact Hlt. discriminate.
  - split; [exact Hge|].
    destruct (init params data) as [strat0|e]; [|discriminate].
    cbn [bind] in H. injection H as <-. exists strat0. split; reflexivity.
Qed.

Lemma backtest_enough (strategy : StrategyChoice) (symbol : string)
    (data : list Bar) (output : string) :
  (201 <= length data)%nat ->
  exists strat, backtest strategy symbol data output = Ok strat.
Proof.
  intros H. destruct strategy. unfold backtest.
  destruct (init_enough data H) as (strat0 & -> & _).
  cbn [bind]. eexists. reflexivity.
Qed.

(* ================================================================== *)
(** * C9: a series that is empty or too short *)
(* ================================================================== *)



(* ================================================================== *)
(** * C10: the periods of the two moving averages *)
(* ================================================================== *)

Lemma history_of_run (strategy : StrategyChoice) (symbol : string)
    (data : list Bar) (output : string) (strat : Strategy) :
  backtest strategy symbol data output = Ok strat ->
  history strat
  = run_bars 201 (array (crossover strat)) 0 data
      {| cash := initial_cash; position := 0; submitted := None |}.
Proof.
  intros H. destruct (backtest_inv _ _ _ _ H) as (Hlen & strat0 & Hinit & ->).
  destruct (init_enough data Hlen) as (s & Hs & _ & Hmin & _).
  rewrite Hs in Hinit. injection Hinit as ->.
  unfold cerebro_run. cbn [history crossover]. now rewrite Hmin.
Qed.

(** C10.  In every ma_crossover backtest the crossover rule compares the
    simple moving averages of the close over 50 and over 200 bars: these
    are the values of the strategy's two lines, an order to buy is only
    issued on a bar where the 50-bar average is above the 200-bar one,
    an order to sell only where it is below, and neither the symbol nor
    the output location changes the run.  A series shorter than 200 bars
    makes the run fail before any bar is processed, so it never produces
    a trade. *)
Theorem crossover_fixed_periods (strategy : StrategyChoice)
    (symbol : string) (data : list Bar) (output : string) :
  ((length data < 200)%nat ->
   backtest strategy symbol data output = Err IndexError) /\
  (forall strat : Strategy,
   backtest strategy symbol data output = Ok strat ->
   (200 <= length data)%nat /\
   (forall symbol' output',
      backtest strategy symbol' data output' = Ok strat) /\
   (forall i, (49 <= i)%nat -> (i < length data)%nat ->
      exists v, at_ (array (short_ma strat)) i = Some v /\
                v == window_mean (close_at (map close data)) 50 i) /\
   (forall i, (199 <= i)%nat -> (i < length data)%nat ->
      exists v, at_ (array (long_ma strat)) i = Some v /\
                v == window_mean (close_at (map close data)) 200 i) /\
   (forall i b o, nth_error (history strat) i = Some (b, Some o) ->
      (200 <= i)%nat /\
      match o with
      | Buy => ogt (at_ (array (short_ma strat)) i)
                   (at_ (array (long_ma strat)) i) = true
      | Sell => olt (at_ (array (short_ma strat)) i)
                    (at_ (array (long_ma strat)) i) = true
      end)).
Proof.
  split.
  - intros H. apply backtest_short. lia.
  - intros strat Hrun.
    pose proof (history_of_run _ _ _ _ Hrun) as Hhist.
    destruct (backtest_inv _ _ _ _ Hrun) as (Hlen & strat0 & Hinit & Hst).
    destruct (init_enough data Hlen)
      as (s & Hs & _ & _ & Hshort & Hlong & Hcross).
    rewrite Hs in Hinit. injection Hinit as ->.
    assert (Es : short_ma strat = short_ma strat0) by (subst strat; reflexivity).
    assert (El : long_ma strat = long_ma strat0) by (subst strat; reflexivity).
    assert (Ec : crossover strat = crossover strat0)
      by (subst strat; reflexivity).
    rewrite Es, El.
    split; [lia|].
    split; [intros symbol' output'; destruct strategy; exact Hrun|].
    split; [exact Hshort|]. split; [exact Hlong|].
    intros i b o Hnth.
    assert (Hi : (i < length data)%nat).
    { rewrite <- (run_bars_length 201 (array (crossover strat)) data 0
                    {| cash := initial_cash; position := 0;
                       submitted := None |}), <- Hhist.
      apply nth_error_Some. rewrite Hnth. discriminate. }
    rewrite Hhist in Hnth. apply run_bars_order in Hnth.
    cbn [fst snd] in Hnth. unfold oncepost in Hnth. cbn [Nat.add] in Hnth.
    destruct (Nat.leb_spec 201 (i + 1)) as [Hge|Hlt]; [|discriminate].
    assert (Hi200 : (200 <= i)%nat) by lia.
    split; [exact Hi200|].
    destruct (Hcross i Hi200 Hi) as [Hup Hdn].
    rewrite Ec in Hnth. unfold next in Hnth.
    destruct (position b =? 0)%Z.
    + destruct (ogt (at_ (array (crossover strat0)) i) (Some 0)) eqn:E;
        [|discriminate].
      injection Hnth as ->. apply Hup. reflexivity.
    + destruct (olt (at_ (array (crossover strat0)) i) (Some 0)) eqn:E;
        [|discriminate].
      injection Hnth as ->. apply Hdn. reflexivity.
Qed.

Lemma example_run_ok :
  backtest ma_crossover "X" example_bars "out" = Ok example_run.
Proof. vm_compute. reflexivity. Qed.

Lemma crossover_fixed_periods_witness :
  backtest ma_crossover "X" (repeat (flat_bar 100) 120) "out"
  = Err IndexError /\
  ((200 <= length example_bars)%nat /\
   (forall symbol' output',
      backtest ma_crossover symbol' example_bars output' = Ok example_run) /\
   (forall i, (49 <= i)%nat -> (i < length example_bars)%nat ->
      exists v, at_ (array (short_ma example_run)) i = Some v /\
                v == window_mean (close_at (map close example_bars)) 50 i) /\
   (forall i, (199 <= i)%nat -> (i < length example_bars)%nat ->
      exists v, at_ (array (long_ma example_run)) i = Some v /\
                v == window_mean (close_at (map close example_bars)) 200 i) /\
   (forall i b o, nth_error (history example_run) i = Some (b, Some o) ->
      (200 <= i)%nat /\
      match o with
      | Buy => ogt (at_ (array (short_ma example_run)) i)
                   (at_ (array (long_ma example_run)) i) = true
      | Sell => olt (at_ (array (short_ma example_run)) i)
                    (at_ (array (long_ma example_run)) i) = true
      end)).
Proof.
  split.
  - apply (proj1 (@crossover_fixed_periods ma_crossover "X"
                    (repeat (flat_bar 100) 120) "out")).
    rewrite repeat_length. lia.
  - apply (proj2 (@crossover_fixed_periods ma_crossover "X"
                    example_bars "out") example_run).
    vm_compute. reflexivity.
Defined.

Lemma broker_next_submitted (b : Broker) (popen : Q) :
  submitted (broker_next b popen) = None.
Proof.
  unfold broker_next.
  destruct (submitted b) as [[[|] created]|] eqn:E;
    [destruct (_ && _) | destruct (Qle_bool _ _) | exact E]; reflexivity.
Qed.

(** the account recorded on a bar has no order pending *)
Lemma run_bars_submitted (minp : nat) (cross : list (option Q))
    (bars : list Bar) :
  forall i b k e,
  nth_error (run_bars minp cross i bars b) k = Some e ->
  submitted (fst e) = None.
Proof.
  induction bars as [|bar rest IH]; intros i b k e; cbn [run_bars].
  - destruct k; discriminate.
  - destruct k as [|k]; cbn [nth_error].
    + intros [= <-]. apply broker_next_submitted.
    + apply IH.
Qed.

(* ================================================================== *)
(** * C1: the orders of the strategy and their execution *)
(* ================================================================== *)

(** C1 (as amended).  In every run of the ma_crossover backtest, started
    flat with a cash of 100,000: the position is always zero or one unit;
    from bar 200 on, on each bar where the position is zero and the
    crossover value is positive the strategy submits a market order to
    buy, and on each bar where the position is not zero and the crossover
    value is negative a market order to sell; on all other bars it
    submits nothing.  An order is for one unit and the broker executes it
    at the opening price of the next bar: a purchase takes that price
    from the cash, provided the cash covers the unit both at the close of
    the bar of the order and at that opening price; a sale adds that
    price to the cash.  Without an order, cash and position stay as they
    are. *)
Theorem crossover_orders_one_unit (strategy : StrategyChoice)
    (symbol : string) (data : list Bar) (output : string)
    (strat : Strategy) :
  backtest strategy symbol data output = Ok strat ->
  let h := history strat in
  let cross := array (crossover strat) in
  length h = length data /\
  (forall b o, nth_error h 0 = Some (b, o) ->
     cash b = 100000 /\ position b = 0%Z) /\
  (forall i b o, nth_error h i = Some (b, o) ->
     (position b = 0 \/ position b = 1)%Z /\
     o = if (200 <=? i)%nat
         then if (position b =? 0)%Z
              then (if ogt (at_ cross i) (Some 0) then Some Buy else None)
              else (if olt (at_ cross i) (Some 0) then Some Sell else None)
         else None) /\
  (forall i b o b' o' bar bar',
     nth_error h i = Some (b, o) ->
     nth_error h (S i) = Some (b', o') ->
     nth_error data i = Some bar ->
     nth_error data (S i) = Some bar' ->
     match o with
     | None => cash b' = cash b /\ position b' = position b
     | Some Buy =>
         if Qle_bool 0 (cash b - 1 * close bar)
            && Qle_bool 0 (cash b - 1 * open bar')
         then cash b' = cash b - 1 * open bar' /\
              position b' = (position b + 1)%Z
         else cash b' = cash b /\ position b' = position b
     | Some Sell =>
         if Qle_bool 0 (cash b + 1 * close bar)
         then cash b' = cash b + 1 * open bar' /\
              position b' = (position b - 1)%Z
         else cash b' = cash b /\ position b' = position b
     end).
Proof.
  intros Hrun h cross.
  pose proof (history_of_run _ _ _ _ Hrun) as Hhist.
  fold h in Hhist. fold cross in Hhist.
  destruct (backtest_inv _ _ _ _ Hrun) as (Hlen & _).
  set (b0 := {| cash := initial_cash; position := 0; submitted := None |})
    in Hhist.
  assert (Hb0 : account_ok b0) by (split; [left; reflexivity | exact I]).
  split; [rewrite Hhist; apply run_bars_length|].
  split; [|split].
  - intros b o H0. rewrite Hhist in H0.
    destruct data as [|bar rest]; [simpl in Hlen; lia|].
    pose proof (@run_bars_first 201 cross (bar :: rest) 0 b0 bar (b, o)
                  eq_refl H0) as Hb.
    cbn [fst] in Hb. subst b. split; reflexivity.
  - intros i b o Hi. rewrite Hhist in Hi. split.
    + apply (@run_bars_ok 201 cross data 0 b0 i (b, o) Hb0 Hi).
    + pose proof (@run_bars_order 201 cross data 0 b0 i (b, o) Hi) as Ho.
      cbn [fst snd Nat.add] in Ho. rewrite Ho. unfold oncepost, next.
      destruct (Nat.leb_spec 201 (i + 1)), (Nat.leb_spec 200 i);
        try lia; reflexivity.
  - intros i b o b' o' bar bar' Hi Hi' Hbar Hbar'. rewrite Hhist in Hi, Hi'.
    pose proof (@run_bars_next 201 cross data 0 b0 i (b, o) (b', o')
                  bar bar' Hi Hi' Hbar Hbar') as Hn.
    cbn [fst snd] in Hn. rewrite Hn. unfold broker_next, submit, stake.
    cbn [submitted cash position]. change (inject_Z 1) with 1.
    destruct o as [[|]|]; cbn [option_map].
    + destruct (Qle_bool 0 (cash b - 1 * close bar)
                && Qle_bool 0 (cash b - 1 * open bar'));
        split; reflexivity.
    + destruct (Qle_bool 0 (cash b + 1 * close bar)); split; reflexivity.
    + split; reflexivity.
Qed.

Lemma crossover_orders_one_unit_witness :
  let h := history example_run in
  let cross := array (crossover example_run) in
  length h = length example_bars /\
  (forall b o, nth_error h 0 = Some (b, o) ->
     cash b = 100000 /\ position b = 0%Z) /\
  (forall i b o, nth_error h i = Some (b, o) ->
     (position b = 0 \/ position b = 1)%Z /\
     o = if (200 <=? i)%nat
         then if (position b =? 0)%Z
              then (if ogt (at_ cross i) (Some 0) then Some Buy else None)
              else (if olt (at_ cross i) (Some 0) then Some Sell else None)
         else None) /\
  (forall i b o b' o' bar bar',
     nth_error h i = Some (b, o) ->
     nth_error h (S i) = Some (b', o') ->
     nth_error example_bars i = Some bar ->
     nth_error example_bars (S i) = Some bar' ->
     match o with
     | None => cash b' = cash b /\ position b' = position b
     | Some Buy =>
         if Qle_bool 0 (cash b - 1 * close bar)
            && Qle_bool 0 (cash b - 1 * open bar')
         then cash b' = cash b - 1 * open bar' /\
              position b' = (position b + 1)%Z
         else cash b' = cash b /\ position b' = position b
     | Some Sell =>
         if Qle_bool 0 (cash b + 1 * close bar)
         then cash b' = cash b + 1 * open bar' /\
              position b' = (position b - 1)%Z
         else cash b' = cash b /\ position b' = position b
     end).
Proof.
  apply (@crossover_orders_one_unit ma_crossover "X" example_bars "out"
           example_run).
  vm_compute. reflexivity.
Defined.

(** C1, as stated, fails.  On bar 200 of the example series the account
    is flat, holds 100,000 and the crossover value is positive; the close
    is 1,000.  The strategy submits an order, yet on that bar nothing is
    bought, and on the next bar one unit is bought at the open: the
    holdings are 1 unit, not 100,000 / 1,000, and the cash is 99,000,
    not 0. *)
Lemma entire_cash_not_invested :
  backtest ma_crossover "X" example_bars "out" = Ok example_run /\
  exists b o b' o' bar,
    nth_error (history example_run) 200 = Some (b, o) /\
    nth_error (history example_run) 201 = Some (b', o') /\
    nth_error example_bars 200 = Some bar /\
    position b = 0%Z /\
    cash b = 100000 /\
    ogt (at_ (array (crossover example_run)) 200) (Some 0) = true /\
    close bar = 1000 /\
    o = Some Buy /\
    position b' = 1%Z /\
    ~ inject_Z (position b') == cash b / close bar /\
    cash b' = 99000 /\
    ~ cash b' == 0.
Proof.
  split; [vm_compute; reflexivity|].
  eexists. eexists. eexists. eexists. eexists.
  split; [vm_compute; reflexivity|].
  split; [vm_compute; reflexivity|].
  split; [vm_compute; reflexivity|].
  split; [reflexivity|]. split; [reflexivity|].
  split; [vm_compute; reflexivity|].
  split; [reflexivity|]. split; [reflexivity|]. split; [reflexivity|].
  split; [intros H; vm_compute in H; discriminate H|].
  split; [reflexivity|].
  intros H; vm_compute in H; discriminate H.
Qed.

(* ================================================================== *)
(** * Further properties of the [indicator] command *)
(* ================================================================== *)

(** ** When the command succeeds *)

(** X1.  Without a [Close] column the command fails on the lookup of that
    column, whatever the indicator and the period: the period is not
    even examined. *)
Theorem indicator_needs_close (t : IndicatorType) (symbol : string)
    (period : Z) (df : DataFrame) :
  lookup "Close" (columns df) = None ->
  indicator t symbol period df = Err KeyError.
Proof.
  intros H. unfold indicator, indicator_columns, getitem. rewrite H.
  destruct t; reflexivity.
Qed.

Lemma indicator_needs_close_witness :
  indicator RSI "X" (-5)
    {| index := [1; 2]%Z; columns := [("Open"%string, [Fin 1; Fin 2])] |}
  = Err KeyError.
Proof.
  apply (@indicator_needs_close RSI "X" (-5)
           {| index := [1; 2]%Z;
              columns := [("Open"%string, [Fin 1; Fin 2])] |}).
  reflexivity.
Defined.

Lemma rolling_mean_ok (period : Z) (s : Series) :
  (0 <= period)%Z ->
  rolling_mean period s = Ok (roll_mean (prep_values s) (Z.to_nat period)).
Proof.
  intros H. unfold rolling_mean.
  now replace (period <? 0)%Z with false by (symmetry; apply Z.ltb_ge; lia).
Qed.






(** ** The emitted table *)

Lemma In_take {A : Type} (d x : A) (rows : list nat) (l : list A) :
  In x (take d rows l) -> exists i, In i rows /\ x = nth i l d.
Proof.
  unfold take. intros H. apply in_map_iff in H.
  destruct H as (i & <- & Hi). exists i. split; [exact Hi | reflexivity].
Qed.

Lemma take_length {A : Type} (d : A) (rows : list nat) (l : list A) :
  length (take d rows l) = length rows.
Proof. unfold take. apply length_map. Qed.

(** X3.  Whatever the input table, the table the command emits is complete:
    every column has exactly one value per emitted row, and no value is
    undefined. *)
Theorem emitted_table_is_complete (t : IndicatorType) (symbol : string)
    (period : Z) (df out : DataFrame) :
  indicator t symbol period df = Ok out -> complete out.
Proof.
  unfold indicator.
  destruct (indicator_columns t period df) as [merged|e]; [|discriminate].
  cbn [bind]. intros [= <-] name col Hin.
  unfold dropna in *. cbn [columns index] in *.
  apply in_map_iff in Hin. destruct Hin as ([n c] & [= <- <-] & Hc).
  cbn [fst snd]. split.
  - now rewrite !take_length.
  - intros x Hx. apply In_take in Hx. destruct Hx as (i & Hi & ->).
    unfold kept_rows in Hi. apply filter_In in Hi. destruct Hi as [_ Hi].
    apply (proj1 (row_complete_iff _ _) Hi n c Hc).
Qed.

Lemma emitted_table_is_complete_witness :
  complete
    {| index := [2]%Z;
       columns := [("Close"%string, [Fin 102]);
                   ("Adj Close"%string, [Fin 5]);
                   ("EMA"%string, [Fin (8208 # 81)])] |}.
Proof.
  apply (@emitted_table_is_complete EMA "X" 2
           {| index := [1; 2]%Z;
              columns := [("Close"%string, [Fin 100; Fin 102]);
                          ("Adj Close"%string, [NaN; Fin 5])] |}).
  vm_compute. reflexivity.
Defined.

Lemma In_assign_inv (name n : string) (s c : Series)
    (cols : list (string * Series)) :
  In (n, c) (assign name s cols) -> (n = name /\ c = s) \/ In (n, c) cols.
Proof.
  induction cols as [|[n0 c0] cols IH]; simpl.
  - intros [[= <- <-]|[]]. left; split; reflexivity.
  - destruct (String.eqb n0 name) eqn:E; simpl.
    + apply String.eqb_eq in E. subst n0.
      intros [[= <- <-]|H]; [left; split; reflexivity | right; right; exact H].
    + intros [H|H]; [right; left; exact H|].
      destruct (IH H) as [H'|H']; [left; exact H' | right; right; exact H'].
Qed.

Lemma lookup_In (name : string) (s : Series) (cols : list (string * Series)) :
  lookup name cols = Some s -> In (name, s) cols.
Proof.
  induction cols as [|[n c] cols IH]; simpl; [discriminate|].
  destruct (String.eqb n name) eqn:E.
  - apply String.eqb_eq in E. subst n. intros [= ->]. left; reflexivity.
  - intros H. right. apply IH, H.
Qed.

Lemma filter_all {A : Type} (f : A -> bool) (l : list A) :
  (forall x, In x l -> f x = true) -> filter f l = l.
Proof.
  induction l as [|x l IH]; intros H; simpl; [reflexivity|].
  rewrite (H x) by (left; reflexivity). f_equal.
  apply IH. intros y Hy. apply H. right. exact Hy.
Qed.

(** the rows from [k] on are those a threshold test keeps *)
Lemma filter_from (f : nat -> bool) (k n : nat) :
  (k <= n)%nat ->
  (forall i, (i < n)%nat -> f i = (k <=? i)%nat) ->
  filter f (seq 0 n) = seq k (n - k).
Proof.
  intros Hk Hf.
  replace n with (k + (n - k))%nat at 1 by lia.
  rewrite seq_app, filter_app. cbn [Nat.add].
  rewrite filter_none, filter_all; [reflexivity | |].
  - intros i Hi. apply in_seq in Hi. rewrite Hf by lia.
    apply Nat.leb_le. lia.
  - intros i Hi. apply in_seq in Hi. rewrite Hf by lia.
    apply Nat.leb_gt. lia.
Qed.

Lemma take_from {A : Type} (d : A) (l : list A) (k : nat) :
  (k <= length l)%nat -> take d (seq k (length l - k)) l = skipn k l.
Proof.
  intros Hk. unfold take.
  rewrite <- (@slice_seq _ d l k (length l - k)%nat) by lia.
  unfold slice. replace (k + (length l - k) - k)%nat
    with (length (skipn k l)) by (rewrite length_skipn; lia).
  apply firstn_all.
Qed.

Lemma filter_defined_from (l : Series) :
  forall k : nat,
  (forall i, (i < k)%nat -> nth i l NaN = NaN) ->
  (forall i, (k <= i)%nat -> (i < length l)%nat -> nth i l NaN <> NaN) ->
  filter defined l = skipn k l.
Proof.
  induction l as [|x l IH]; intros k Hlo Hhi.
  - now rewrite skipn_nil.
  - destruct k as [|k].
    + cbn [skipn]. apply filter_all. intros y Hy.
      destruct (In_nth _ _ NaN Hy) as (i & Hi & <-).
      specialize (Hhi i ltac:(lia) Hi).
      destruct (nth i (x :: l) NaN); try reflexivity. contradiction.
    + cbn [filter skipn].
      assert (Hx : x = NaN) by (apply (Hlo 0%nat); lia). subst x.
      cbn [defined isnan negb]. apply IH.
      * intros i Hi. apply (Hlo (S i)). lia.
      * intros i Hk Hi. apply (Hhi (S i)); simpl; lia.
Qed.

Lemma complete_nth (df : DataFrame) (name : string) (col : Series) (i : nat) :
  complete df -> In (name, col) (columns df) ->
  (i < length (index df))%nat -> nth i col NaN <> NaN.
Proof.
  intros Hc Hin Hi. destruct (Hc name col Hin) as [Hlen Hno].
  apply Hno. apply nth_In. lia.
Qed.

(** X4.  On a complete table with finite closes and a period between 1 and
    the number of rows, the SMA command drops exactly the first
    [period - 1] rows: the index and every input column are emitted from
    row [period - 1] on, and the emitted SMA column is the rolling mean
    of the closes with its undefined values removed. *)
Theorem sma_emits_defined_tail (df out : DataFrame) (cs : list Q)
    (symbol : string) (period : Z) :
  complete df ->
  getitem df "Close" = Ok (map Fin cs) ->
  (0 < period)%Z ->
  (period <= Z.of_nat (length (index df)))%Z ->
  indicator SMA symbol period df = Ok out ->
  index out = skipn (Z.to_nat period - 1) (index df) /\
  (forall name col,
     name <> "SMA"%string -> lookup name (columns df) = Some col ->
     lookup name (columns out) = Some (skipn (Z.to_nat period - 1) col)) /\
  exists sma,
    rolling_mean period (map Fin cs) = Ok sma /\
    lookup "SMA" (columns out) = Some (filter defined sma).
Proof.
  intros Hc Hclose Hpos Hle Hrun.
  set (p := Z.to_nat period). set (n := length (index df)).
  assert (Hp : (1 <= p)%nat) by (unfold p; lia).
  assert (Hpn : (p <= n)%nat) by (unfold p, n; lia).
  assert (Hcs : length cs = n).
  { unfold getitem in Hclose.
    destruct (lookup "Close" (columns df)) as [c|] eqn:E; [|discriminate].
    injection Hclose as ->. apply lookup_In in E.
    destruct (Hc _ _ E) as [Hlen _]. now rewrite length_map in Hlen. }
  set (sma := roll_mean (map Some cs) p).
  assert (Hsma : rolling_mean period (map Fin cs) = Ok sma)
    by (rewrite rolling_mean_ok by lia; now rewrite prep_values_fin).
  assert (Hlen : length sma = n)
    by (unfold sma; now rewrite roll_mean_length, length_map).
  assert (Hlo : forall i, (i < p - 1)%nat -> nth i sma NaN = NaN)
    by (intros i Hi; apply roll_mean_undefined; lia).
  assert (Hhi : forall i, (p - 1 <= i)%nat -> (i < length sma)%nat ->
                  nth i sma NaN <> NaN).
  { intros i Hi Hn.
    destruct (@roll_mean_finite cs p i Hp ltac:(lia) ltac:(lia))
      as (v & Hv & _).
    fold sma in Hv. rewrite Hv. discriminate. }
  unfold indicator, indicator_columns in Hrun. rewrite Hclose in Hrun.
  cbn [bind] in Hrun. rewrite Hsma in Hrun. cbn [bind] in Hrun.
  injection Hrun as <-.
  assert (Hrows : kept_rows (setitem df "SMA" sma) = seq (p - 1) (n - (p - 1))).
  { unfold kept_rows. cbn [setitem index columns]. fold n.
    apply filter_from; [lia|]. intros i Hi.
    destruct (Nat.leb_spec (p - 1) i) as [Hge|Hlt].
    - apply row_complete_iff. intros name col Hin.
      destruct (In_assign_inv _ _ _ _ _ Hin) as [[_ ->]|Hin'].
      + apply Hhi; lia.
      + apply (@complete_nth df name col i Hc Hin' Hi).
    - destruct (row_complete (assign "SMA" sma (columns df)) i) eqn:E;
        [|reflexivity].
      exfalso.
      apply (proj1 (row_complete_iff _ _) E "SMA"%string sma (In_assign _ _ _)).
      apply Hlo. lia. }
  unfold dropna. rewrite Hrows. cbn [index columns setitem].
  split; [|split].
  - unfold n. apply take_from. fold n. lia.
  - intros name col Hne Hcol. rewrite lookup_dropna.
    rewrite lookup_assign_other by exact Hne. rewrite Hcol. cbn [option_map].
    f_equal. destruct (Hc _ _ (lookup_In _ _ Hcol)) as [Hl _]. fold n in Hl.
    rewrite <- Hl. apply take_from. lia.
  - exists sma. split; [exact Hsma|].
    rewrite lookup_dropna, lookup_assign_same. cbn [option_map]. f_equal.
    rewrite (@filter_defined_from sma (p - 1)%nat Hlo Hhi).
    rewrite <- Hlen. apply take_from. lia.
Qed.

Lemma sma_emits_defined_tail_witness :
  index
    {| index := [2; 3]%Z;
       columns := [("Close"%string, [Fin 102; Fin 104]);
                   ("SMA"%string, [Fin (202 # 2); Fin (206 # 2)])] |}
  = skipn (Z.to_nat 2 - 1) [1; 2; 3]%Z /\
  (forall name col,
     name <> "SMA"%string ->
     lookup name [("Close"%string, map Fin [100; 102; 104])] = Some col ->
     lookup name
       [("Close"%string, [Fin 102; Fin 104]);
        ("SMA"%string, [Fin (202 # 2); Fin (206 # 2)])]
     = Some (skipn (Z.to_nat 2 - 1) col)) /\
  exists sma,
    rolling_mean 2 (map Fin [100; 102; 104]) = Ok sma /\
    lookup "SMA"
      [("Close"%string, [Fin 102; Fin 104]);
       ("SMA"%string, [Fin (202 # 2); Fin (206 # 2)])]
    = Some (filter defined sma).
Proof.
  apply (@sma_emits_defined_tail
           {| index := [1; 2; 3]%Z;
              columns := [("Close"%string, map Fin [100; 102; 104])] |}
           {| index := [2; 3]%Z;
              columns := [("Close"%string, [Fin 102; Fin 104]);
                          ("SMA"%string, [Fin (202 # 2); Fin (206 # 2)])] |}
           [100; 102; 104] "X" 2).
  - intros name col [[= <- <-]|[]]. split; [reflexivity|].
    intros x [<-|[<-|[<-|[]]]]; discriminate.
  - reflexivity.
  - lia.
  - simpl. lia.
  - vm_compute. reflexivity.
Defined.

(** pruning a complete table changes nothing *)
Lemma dropna_complete (df : DataFrame) : complete df -> dropna df = df.
Proof.
  intros Hc.
  assert (Hrows : kept_rows df = seq 0 (length (index df) - 0)).
  { unfold kept_rows. apply filter_from; [lia|]. intros i Hi.
    cbn [Nat.leb]. apply row_complete_iff. intros name col Hin.
    apply (@complete_nth df name col i Hc Hin Hi). }
  unfold dropna. rewrite Hrows. destruct df as [idx cols].
  cbn [index columns] in *. f_equal.
  - apply (@take_from _ 0%Z idx 0%nat). lia.
  - rewrite <- (map_id cols) at 2. apply map_ext_in.
    intros [name col] Hin. cbv beta. cbn [fst snd].
    apply (f_equal (pair name)).
    destruct (Hc name col Hin) as [Hl _]. cbn [index] in Hl.
    rewrite <- Hl. apply (@take_from _ NaN col 0%nat). lia.
Qed.

Lemma complete_setitem (df : DataFrame) (name : string) (s : Series) :
  complete df ->
  length s = length (index df) ->
  (forall x, In x s -> x <> NaN) ->
  complete (setitem df name s).
Proof.
  intros Hc Hl Hs n c Hin. cbn [setitem index columns] in *.
  destruct (In_assign_inv _ _ _ _ _ Hin) as [[_ ->]|Hin'].
  - split; assumption.
  - apply (Hc n c Hin').
Qed.

Lemma In_map_Fin (E : list Q) (x : float64) : In x (map Fin E) -> x <> NaN.
Proof.
  intros H. apply in_map_iff in H. destruct H as (q & <- & _). discriminate.
Qed.

Lemma map2_Qminus_length (A B : list Q) :
  length A = length B -> length (map2 Qminus A B) = length A.
Proof.
  revert B; induction A as [|a A IH]; intros [|b B] H; simpl in *;
    try discriminate; [reflexivity|].
  f_equal. apply IH. congruence.
Qed.



(* ================================================================== *)
(** * Bounds of the moving averages *)
(* ================================================================== *)



Lemma between_nth (lo hi : Q) (cs : list Q) (j : nat) :
  between lo hi cs -> (j < length cs)%nat ->
  lo <= nth j cs 0 /\ nth j cs 0 <= hi.
Proof.
  intros H Hj. unfold between in H. rewrite Forall_forall in H.
  apply H. apply nth_In. exact Hj.
Qed.





Lemma alpha_unit (span : Z) :
  (1 <= span)%Z -> 0 <= alpha span /\ alpha span <= 1.
Proof.
  intros H. unfold alpha.
  assert (Hq : 1 <= inject_Z span)
    by (change 1 with (inject_Z 1); rewrite <- Zle_Qle; exact H).
  split; [apply Qle_shift_div_l | apply Qle_shift_div_r]; lra.
Qed.

Lemma convex_between (a lo hi c prev : Q) :
  0 <= a -> a <= 1 -> lo <= c -> c <= hi -> lo <= prev -> prev <= hi ->
  lo <= a * c + (1 - a) * prev /\ a * c + (1 - a) * prev <= hi.
Proof.
  intros Ha0 Ha1 Hc1 Hc2 Hp1 Hp2.
  pose proof (Qmult_le_0_compat _ _ Ha0 (proj1 (Qle_minus_iff lo c) Hc1)) as H1.
  pose proof (Qmult_le_0_compat _ _ Ha0 (proj1 (Qle_minus_iff c hi) Hc2)) as H2.
  assert (Ha' : 0 <= 1 - a) by lra.
  pose proof (Qmult_le_0_compat _ _ Ha'
                (proj1 (Qle_minus_iff lo prev) Hp1)) as H3.
  pose proof (Qmult_le_0_compat _ _ Ha'
                (proj1 (Qle_minus_iff prev hi) Hp2)) as H4.
  split.
  - apply Qle_minus_iff.
    setoid_replace (a * c + (1 - a) * prev + - lo)
      with (a * (c + - lo) + (1 - a) * (prev + - lo)) by ring.
    lra.
  - apply Qle_minus_iff.
    setoid_replace (hi + - (a * c + (1 - a) * prev))
      with (a * (hi + - c) + (1 - a) * (hi + - prev)) by ring.
    lra.
Qed.

Lemma ema_from_between (a lo hi : Q) (cs : list Q) :
  0 <= a -> a <= 1 -> between lo hi cs ->
  forall prev, lo <= prev -> prev <= hi -> between lo hi (ema_from a prev cs).
Proof.
  intros Ha0 Ha1. induction 1 as [|c cs [Hc1 Hc2] _ IH]; intros prev Hp1 Hp2.
  - constructor.
  - cbn [ema_from].
    destruct (@convex_between a lo hi c prev Ha0 Ha1 Hc1 Hc2 Hp1 Hp2)
      as [H1 H2].
    constructor; [split; assumption|]. apply IH; assumption.
Qed.

Lemma ema_spec_between (a lo hi : Q) (cs : list Q) :
  0 <= a -> a <= 1 -> between lo hi cs -> between lo hi (ema_spec a cs).
Proof.
  intros Ha0 Ha1 Hb. destruct Hb as [|c cs [Hc1 Hc2] Hb]; cbn [ema_spec].
  - constructor.
  - constructor; [split; assumption|].
    apply ema_from_between; assumption.
Qed.

Lemma between_Qeq (lo hi : Q) (A B : list Q) :
  Forall2 Qeq A B -> between lo hi B -> between lo hi A.
Proof.
  induction 1 as [|a b A B Hab _ IH]; intros Hb; [constructor|].
  inversion Hb as [|? ? [H1 H2] Hb']; subst.
  constructor; [split; lra | apply IH, Hb'].
Qed.

Lemma ewm_between (span : Z) (lo hi : Q) (cs : list Q) :
  (1 <= span)%Z -> between lo hi cs ->
  exists E, ewm_mean span (map Fin cs) = Ok (map Fin E) /\
            length E = length cs /\ between lo hi E.
Proof.
  intros Hs Hb.
  destruct (ewm_mean_finite cs Hs) as (E & HE & HF & _).
  destruct (alpha_unit Hs) as [Ha0 Ha1].
  exists E. split; [exact HE|].
  split; [now rewrite (Forall2_length HF), ema_spec_length|].
  apply (between_Qeq HF). apply ema_spec_between; assumption.
Qed.



Lemma map2_Qminus_between (lo hi : Q) (A B : list Q) :
  between lo hi A -> between lo hi B ->
  between (lo - hi) (hi - lo) (map2 Qminus A B).
Proof.
  intros HA; revert B.
  induction HA as [|a A [Ha1 Ha2] _ IH]; intros B HB; [constructor|].
  destruct HB as [|b B [Hb1 Hb2] HB]; cbn [map2]; constructor.
  - unfold Qminus in *. split; lra.
  - apply IH, HB.
Qed.

(** X8.  The MACD and Signal values never exceed, in size, the spread of the
    closes: between bounds [lo] and [hi] of the closes, both lie within
    [[lo - hi, hi - lo]] on every bar.  On a series that does not move
    both are therefore zero. *)
Theorem macd_between (df merged : DataFrame) (cs : list Q) (period : Z)
    (macd signal : Series) (lo hi : Q) :
  getitem df "Close" = Ok (map Fin cs) ->
  between lo hi cs ->
  indicator_columns MACD period df = Ok merged ->
  getitem merged "MACD" = Ok macd ->
  getitem merged "Signal" = Ok signal ->
  forall i, (i < length cs)%nat ->
    exists m g,
      nth i macd NaN = Fin m /\ nth i signal NaN = Fin g /\
      lo - hi <= m /\ m <= hi - lo /\ lo - hi <= g /\ g <= hi - lo.
Proof.
  intros Hclose Hb Hm Hmacd Hsig i Hi.
  destruct (@ewm_between 12 lo hi cs ltac:(lia) Hb) as (E12 & H12 & L12 & B12).
  destruct (@ewm_between 26 lo hi cs ltac:(lia) Hb) as (E26 & H26 & L26 & B26).
  pose proof (map2_Qminus_between B12 B26) as BM.
  destruct (@ewm_between 9 (lo - hi) (hi - lo) (map2 Qminus E12 E26)
              ltac:(lia) BM) as (G & HG & LG & BG).
  unfold indicator_columns, ema12, ema26 in Hm.
  rewrite Hclose in Hm. cbn [bind] in Hm. rewrite H12, H26 in Hm.
  cbn [bind] in Hm. rewrite getitem_setitem_same in Hm. cbn [bind] in Hm.
  rewrite sub_fin, HG in Hm. cbn [bind] in Hm. injection Hm as <-.
  rewrite getitem_setitem_other in Hmacd by discriminate.
  rewrite getitem_setitem_same in Hmacd, Hsig.
  injection Hmacd as <-. injection Hsig as <-.
  assert (LM : length (map2 Qminus E12 E26) = length cs)
    by (rewrite map2_Qminus_length; congruence).
  exists (nth i (map2 Qminus E12 E26) 0), (nth i G 0).
  rewrite !nth_map_Fin by lia.
  destruct (@between_nth _ _ _ i BM ltac:(lia)) as [Hm1 Hm2].
  destruct (@between_nth _ _ _ i BG ltac:(lia)) as [Hg1 Hg2].
  repeat split; assumption.
Qed.

Lemma macd_between_witness :
  exists m g,
    nth 1 [Fin (100 + - 100); Fin (100 + - 100)] NaN = Fin m /\
    nth 1 [Fin (100 + - 100); Fin (100 + - 100)] NaN = Fin g /\
    100 - 100 <= m /\ m <= 100 - 100 /\
    100 - 100 <= g /\ g <= 100 - 100.
Proof.
  refine (@macd_between
           {| index := [1; 2]%Z;
              columns := [("Close"%string, map Fin [100; 100])] |}
           {| index := [1; 2]%Z;
              columns := [("Close"%string, map Fin [100; 100]);
                          ("MACD"%string,
                           [Fin (100 + - 100); Fin (100 + - 100)]);
                          ("Signal"%string,
                           [Fin (100 + - 100); Fin (100 + - 100)])] |}
           [100; 100] 14
           [Fin (100 + - 100); Fin (100 + - 100)]
           [Fin (100 + - 100); Fin (100 + - 100)] 100 100
           _ _ _ _ _ 1%nat _).
  - reflexivity.
  - repeat constructor; cbn; lra.
  - vm_compute. reflexivity.
  - reflexivity.
  - reflexivity.
  - simpl. lia.
Defined.

(* ================================================================== *)
(** * The RSI of a series that only rises or only falls *)
(* ================================================================== *)

(** on a bar with a full window the RSI value is that of the means of
    the per-bar gains and losses; both means are non-negative *)
Lemma rsi_fin_nth (cs : list Q) (period : Z) (r : Series) (i : nat) :
  (0 < period)%Z ->
  rsi period (map Fin cs) = Ok r ->
  (Z.to_nat period - 1 <= i)%nat -> (i < length cs)%nat ->
  exists a b,
    nth i r NaN = rsi_value (Fin a) (Fin b) /\
    a == window_mean (bar_gain cs) (Z.to_nat period) i /\
    b == window_mean (bar_loss cs) (Z.to_nat period) i.
Proof.
  intros Hpos Hr Hlo Hi.
  set (p := Z.to_nat period) in *.
  assert (Hp : (1 <= p)%nat) by (unfold p; lia).
  destruct (rsi_inv _ _ Hr) as (g & l & Hg & Hl & _ & Hnth).
  rewrite gain_fin in Hg by lia. rewrite loss_fin in Hl by lia.
  injection Hg as <-. injection Hl as <-. fold p in Hnth.
  destruct (@roll_mean_finite (gains_q cs) p i Hp ltac:(lia)
              ltac:(rewrite gains_q_length; lia)) as (a & Ha & Hma).
  destruct (@roll_mean_finite (losses_q cs) p i Hp ltac:(lia)
              ltac:(rewrite losses_q_length; lia)) as (b & Hb & Hmb).
  exists a, b. rewrite Hnth, Ha, Hb. split; [reflexivity|]. split.
  - rewrite Hma. apply window_mean_ext; [lia|].
    intros j Hj. apply gains_q_nth. lia.
  - rewrite Hmb. apply window_mean_ext; [lia|].
    intros j Hj. apply losses_q_nth. lia.
Qed.

Lemma Qsum_zero (l : list Q) : Forall (fun x => x == 0) l -> Qsum l == 0.
Proof. induction 1 as [|x l Hx _ IH]; cbn [Qsum]; lra. Qed.

Lemma Qsum_nonneg (l : list Q) : Forall (fun x => 0 <= x) l -> 0 <= Qsum l.
Proof. induction 1 as [|x l Hx _ IH]; cbn [Qsum]; lra. Qed.

Lemma Qsum_pos (l : list Q) (y : Q) :
  Forall (fun x => 0 <= x) l -> In y l -> 0 < y -> 0 < Qsum l.
Proof.
  induction 1 as [|x l Hx Hl IH]; intros Hin Hy; [contradiction|].
  cbn [Qsum]. pose proof (Qsum_nonneg Hl) as Hs.
  destruct Hin as [->|Hin]; [lra|]. specialize (IH Hin Hy). lra.
Qed.

Lemma pos_part_nonneg (d : Q) : 0 <= pos_part d.
Proof.
  unfold pos_part. destruct (d ?= 0) eqn:C; try lra.
  apply Qgt_alt in C. lra.
Qed.

Lemma pos_part_pos (d : Q) : 0 < d -> pos_part d = d.
Proof.
  intros H. unfold pos_part.
  destruct (d ?= 0) eqn:C;
    [apply Qeq_alt in C; lra | apply Qlt_alt in C; lra | reflexivity].
Qed.

Lemma pos_part_neg (d : Q) : d < 0 -> pos_part d = 0.
Proof.
  intros H. unfold pos_part.
  destruct (d ?= 0) eqn:C;
    [reflexivity | reflexivity | apply Qgt_alt in C; lra].
Qed.

Section Monotone.

Variable cs : list Q.
Variables p i : nat.
Hypothesis Hp : (1 <= p)%nat.
Hypothesis Hpi : (p <= i + 1)%nat.
Hypothesis Hi1 : (1 <= i)%nat.
Hypothesis Hi : (i < length cs)%nat.

Lemma window_size_pos : 0 < inject_Z (Z.of_nat p).
Proof. change 0 with (inject_Z 0). rewrite <- Zlt_Qlt. lia. Qed.

Lemma rising_means :
  rising cs ->
  0 < window_mean (bar_gain cs) p i /\ window_mean (bar_loss cs) p i == 0.
Proof.
  intros Hr. unfold window_mean, window. split.
  - apply Qlt_shift_div_l; [exact window_size_pos|]. rewrite Qmult_0_l.
    apply (@Qsum_pos _ (bar_gain cs i)).
    + apply Forall_map, Forall_forall. intros j _.
      destruct j; cbn [bar_gain]; [lra | apply pos_part_nonneg].
    + apply in_map, in_seq. lia.
    + destruct i as [|k]; [lia|]. cbn [bar_gain].
      specialize (Hr k ltac:(lia)). rewrite pos_part_pos; lra.
  - assert (Hs : Qsum (map (bar_loss cs) (seq (i + 1 - p) p)) == 0).
    { apply Qsum_zero, Forall_map, Forall_forall. intros j Hj.
      apply in_seq in Hj. destruct j as [|k]; cbn [bar_loss]; [reflexivity|].
      specialize (Hr k ltac:(lia)). rewrite pos_part_neg; lra. }
    rewrite Hs. field. pose proof window_size_pos. lra.
Qed.

Lemma falling_means :
  falling cs ->
  window_mean (bar_gain cs) p i == 0 /\ 0 < window_mean (bar_loss cs) p i.
Proof.
  intros Hf. unfold window_mean, window. split.
  - assert (Hs : Qsum (map (bar_gain cs) (seq (i + 1 - p) p)) == 0).
    { apply Qsum_zero, Forall_map, Forall_forall. intros j Hj.
      apply in_seq in Hj. destruct j as [|k]; cbn [bar_gain]; [reflexivity|].
      specialize (Hf k ltac:(lia)). rewrite pos_part_neg; lra. }
    rewrite Hs. field. pose proof window_size_pos. lra.
  - apply Qlt_shift_div_l; [exact window_size_pos|]. rewrite Qmult_0_l.
    apply (@Qsum_pos _ (bar_loss cs i)).
    + apply Forall_map, Forall_forall. intros j _.
      destruct j; cbn [bar_loss]; [lra | apply pos_part_nonneg].
    + apply in_map, in_seq. lia.
    + destruct i as [|k]; [lia|]. cbn [bar_loss].
      specialize (Hf k ltac:(lia)). rewrite pos_part_pos; lra.
Qed.

End Monotone.

Lemma rsi_value_zero_gain (a b : Q) :
  a == 0 -> 0 < b ->
  exists v, rsi_value (Fin a) (Fin b) = Fin v /\ v == 0.
Proof.
  intros Ha Hb. unfold rsi_value. cbn [fdiv].
  assert (E : Qeq_bool b 0 = false).
  { destruct (Qeq_bool b 0) eqn:E; [|reflexivity].
    apply Qeq_bool_iff in E. lra. }
  rewrite E. cbn [fadd fdiv].
  assert (Hr : a / b == 0) by (rewrite Ha; field; lra).
  assert (E1 : Qeq_bool (1 + a / b) 0 = false).
  { destruct (Qeq_bool (1 + a / b) 0) eqn:E1; [|reflexivity].
    apply Qeq_bool_iff in E1. lra. }
  rewrite E1. cbn [fsub fneg fadd]. eexists. split; [reflexivity|].
  rewrite Hr. field.
Qed.

(** X9.  On a series whose close rises from every bar to the next, the RSI is
    exactly 100 on every bar from the first full window on (bar 0 apart,
    which has no price change); on a series that falls from every bar to
    the next it is 0 there. *)
Theorem rsi_of_monotone_series (df merged : DataFrame) (cs : list Q)
    (period : Z) (r : Series) (i : nat) :
  getitem df "Close" = Ok (map Fin cs) ->
  (0 < period)%Z ->
  indicator_columns RSI period df = Ok merged ->
  getitem merged "RSI" = Ok r ->
  (1 <= i)%nat -> (Z.to_nat period - 1 <= i)%nat -> (i < length cs)%nat ->
  (rising cs -> nth i r NaN = Fin 100) /\
  (falling cs -> exists v, nth i r NaN = Fin v /\ v == 0).
Proof.
  intros Hclose Hpos Hm Hr Hi1 Hlo Hi.
  unfold indicator_columns in Hm. rewrite Hclose in Hm. cbn [bind] in Hm.
  destruct (rsi period (map Fin cs)) as [r'|e] eqn:Hrsi; [|discriminate].
  cbn [bind] in Hm. injection Hm as <-.
  rewrite getitem_setitem_same in Hr. injection Hr as ->.
  destruct (rsi_fin_nth cs Hpos Hrsi Hlo Hi) as (a & b & Hn & Ha & Hb).
  assert (Hp : (1 <= Z.to_nat period)%nat) by lia.
  assert (Hpi : (Z.to_nat period <= i + 1)%nat) by lia.
  rewrite Hn. split.
  - intros Hrise.
    destruct (rising_means Hp Hpi Hi1 Hi Hrise) as [Hg Hl].
    apply rsi_value_zero_loss; [rewrite Hb; exact Hl | rewrite Ha; exact Hg].
  - intros Hfall.
    destruct (falling_means Hp Hpi Hi1 Hi Hfall) as [Hg Hl].
    apply rsi_value_zero_gain; [rewrite Ha; exact Hg | rewrite Hb; exact Hl].
Qed.

Lemma rsi_of_monotone_series_witness :
  nth 1 [NaN; Fin 100; Fin 100] NaN = Fin 100.
Proof.
  apply (proj1 (@rsi_of_monotone_series
           {| index := [1; 2; 3]%Z;
              columns := [("Close"%string, map Fin [100; 102; 104])] |}
           {| index := [1; 2; 3]%Z;
              columns := [("Close"%string, map Fin [100; 102; 104]);
                          ("RSI"%string, [NaN; Fin 100; Fin 100])] |}
           [100; 102; 104] 2 [NaN; Fin 100; Fin 100] 1
           eq_refl ltac:(lia) ltac:(vm_compute; reflexivity) eq_refl
           ltac:(lia) ltac:(simpl; lia) ltac:(simpl; lia))).
  intros j Hj. simpl in Hj.
  destruct j as [|[|j]]; [cbn; lra | cbn; lra | lia].
Defined.

(* ================================================================== *)
(** * Further properties of the [backtest] command *)
(* ================================================================== *)

(** X10.  The run needs 201 bars: the crossover looks one bar back from the
    first bar on which the 200-bar average exists.  With fewer bars, a
    series of exactly 200 bars included, the command fails; with 201 or
    more it completes and records every bar. *)
Theorem backtest_needs_201_bars (strategy : StrategyChoice)
    (symbol : string) (data : list Bar) (output : string) :
  ((length data < 201)%nat ->
   backtest strategy symbol data output = Err IndexError) /\
  ((201 <= length data)%nat ->
   exists strat,
     backtest strategy symbol data output = Ok strat /\
     length (history strat) = length data).
Proof.
  split; [apply backtest_short|].
  intros H. destruct (@backtest_enough strategy symbol data output H) as [strat Hs].
  exists strat. split; [exact Hs|].
  rewrite (history_of_run _ _ _ _ Hs). apply run_bars_length.
Qed.

Lemma backtest_needs_201_bars_witness :
  backtest ma_crossover "X" (repeat (flat_bar 100) 200) "out"
  = Err IndexError /\
  exists strat,
    backtest ma_crossover "X" example_bars "out" = Ok strat /\
    length (history strat) = length example_bars.
Proof.
  split.
  - apply (proj1 (@backtest_needs_201_bars ma_crossover "X"
                    (repeat (flat_bar 100) 200) "out")).
    rewrite repeat_length. lia.
  - apply (proj2 (@backtest_needs_201_bars ma_crossover "X"
                    example_bars "out")).
    vm_compute. lia.
Defined.

(** ** The values of the crossover line *)

Lemma CrossOver_fill (data0 data1 : Line) :
  let n := length (array data0) in
  let mp := Nat.max (minperiod data0) (minperiod data1) in
  (mp + 1 <= n)%nat ->
  exists g,
    CrossOver data0 data1 = Ok (fill n (mp + 1) g) /\
    forall i, (mp <= i)%nat -> (i < n)%nat ->
      exists bu bd : bool, g i = osub (of_bool bu) (of_bool bd).
Proof.
  intros n mp H.
  destruct (CrossBase_enough data0 data1 true H) as (up & Hup & Hmu & Hlu & Hau).
  destruct (CrossBase_enough data0 data1 false H) as (dn & Hdn & Hmd & Hld & Had).
  unfold CrossOver. rewrite Hup, Hdn. cbn [bind]. rewrite Hmu, Hmd.
  fold n. fold mp. rewrite once_enough by lia. rewrite Nat.max_id.
  eexists. split; [reflexivity|].
  intros i Hlo Hi. cbv beta.
  destruct (Hau i Hlo Hi) as (bu & ->).
  destruct (Had i Hlo Hi) as (bd & ->).
  eexists. eexists. reflexivity.
Qed.

Lemma cross_values (u d : bool) :
  exists v, osub (of_bool u) (of_bool d) = Some v /\
            (v == 1 \/ v == 0 \/ v == -1).
Proof.
  destruct u, d; eexists; (split; [reflexivity|]);
    [right; left | left | right; right | right; left]; reflexivity.
Qed.

(** X11.  In every completed run the crossover line has one slot per bar; it
    is undefined on the bars 0 to 199 and, from bar 200 on, its value is
    1, 0 or -1. *)
Theorem crossover_line_values (strategy : StrategyChoice)
    (symbol : string) (data : list Bar) (output : string)
    (strat : Strategy) :
  backtest strategy symbol data output = Ok strat ->
  length (array (crossover strat)) = length data /\
  forall i, (i < length data)%nat ->
    ((i < 200)%nat -> at_ (array (crossover strat)) i = None) /\
    ((200 <= i)%nat ->
     exists v, at_ (array (crossover strat)) i = Some v /\
               (v == 1 \/ v == 0 \/ v == -1)).
Proof.
  intros Hrun.
  destruct (backtest_inv _ _ _ _ Hrun) as (Hlen & strat0 & Hinit & ->).
  unfold cerebro_run. cbn [crossover].
  unfold init, params in Hinit. cbn [short_period long_period] in Hinit.
  destruct (@SimpleMovingAverage_enough (map close data) 50)
    as (s & Hs & Hms & Hls & _); try (rewrite ?length_map; lia).
  destruct (@SimpleMovingAverage_enough (map close data) 200)
    as (l & Hl & Hml & Hll & _); try (rewrite ?length_map; lia).
  rewrite Hs, Hl in Hinit. cbn [bind] in Hinit.
  rewrite length_map in Hls, Hll.
  destruct (@CrossOver_fill s l) as (g & Hc & Hg).
  { rewrite Hms, Hml, Hls. simpl. lia. }
  rewrite Hms, Hml, Hls in Hc, Hg. cbn [Nat.max] in Hc, Hg.
  rewrite Hc in Hinit. cbn [bind] in Hinit. injection Hinit as <-.
  cbn [crossover]. split; [apply fill_length|].
  intros i Hi. rewrite fill_at by exact Hi. split.
  - intros Hlt.
    destruct (Nat.ltb_spec i (201 - 1)) as [_|Hge]; [reflexivity | lia].
  - intros Hge.
    destruct (Nat.ltb_spec i (201 - 1)) as [Hlt|_]; [lia|].
    destruct (Hg i Hge Hi) as (bu & bd & ->). apply cross_values.
Qed.

Lemma crossover_line_values_witness :
  length (array (crossover example_run)) = length example_bars /\
  forall i, (i < length example_bars)%nat ->
    ((i < 200)%nat -> at_ (array (crossover example_run)) i = None) /\
    ((200 <= i)%nat ->
     exists v, at_ (array (crossover example_run)) i = Some v /\
               (v == 1 \/ v == 0 \/ v == -1)).
Proof.
  apply (@crossover_line_values ma_crossover "X" example_bars "out"
           example_run).
  vm_compute. reflexivity.
Defined.

(** ** The account during the run *)

Lemma run_bars_idle (minp : nat) (cross : list (option Q))
    (bars : list Bar) :
  forall i b k e,
  submitted b = None ->
  (i + k < minp)%nat ->
  nth_error (run_bars minp cross i bars b) k = Some e ->
  cash (fst e) = cash b /\ position (fst e) = position b /\
  ((i + k + 1 < minp)%nat -> snd e = None).
Proof.
  induction bars as [|bar rest IH]; intros i b k e Hsub Hk; cbn [run_bars].
  - destruct k; discriminate.
  - assert (Hb1 : broker_next b (open bar) = b)
      by (unfold broker_next; now rewrite Hsub).
    rewrite Hb1. destruct k as [|k]; cbn [nth_error].
    + intros [= <-]. cbn [fst snd]. repeat split.
      intros Hlt. unfold oncepost.
      now replace (minp <=? i + 1)%nat with false
        by (symmetry; apply Nat.leb_gt; lia).
    + intros H.
      assert (Ho : oncepost minp cross i b = None).
      { unfold oncepost.
        now replace (minp <=? i + 1)%nat with false
          by (symmetry; apply Nat.leb_gt; lia). }
      rewrite Ho in H.
      destruct (IH (i + 1)%nat (submit b None (close bar)) k e eq_refl
                  ltac:(lia) H) as (Hc & Hp & Hn).
      cbn [submit cash position] in Hc, Hp.
      repeat split; try assumption. intros Hlt. apply Hn. lia.
Qed.

(** X12.  Nothing is traded through bar 200: on each of the bars 0 to 200 the
    account still holds the initial cash and no position, and before bar
    200 no order is issued.  The first order can be issued on bar 200
    and executed on bar 201. *)
Theorem no_trade_through_bar_200 (strategy : StrategyChoice)
    (symbol : string) (data : list Bar) (output : string)
    (strat : Strategy) :
  backtest strategy symbol data output = Ok strat ->
  forall i b o,
    (i <= 200)%nat ->
    nth_error (history strat) i = Some (b, o) ->
    cash b = 100000 /\ position b = 0%Z /\ ((i < 200)%nat -> o = None).
Proof.
  intros Hrun i b o Hi Hnth.
  rewrite (history_of_run _ _ _ _ Hrun) in Hnth.
  destruct (@run_bars_idle 201 (array (crossover strat)) data 0
              {| cash := initial_cash; position := 0; submitted := None |}
              i (b, o) eq_refl ltac:(simpl; lia) Hnth) as (Hc & Hp & Hn).
  cbn [fst snd cash position] in Hc, Hp, Hn.
  repeat split; try assumption. intros Hlt. apply Hn. simpl. lia.
Qed.

Lemma no_trade_through_bar_200_witness :
  exists b o,
    nth_error (history example_run) 200 = Some (b, o) /\
    cash b = 100000 /\ position b = 0%Z /\ ((200 < 200)%nat -> o = None).
Proof.
  destruct (nth_error (history example_run) 200) as [[b o]|] eqn:E.
  - exists b, o. split; [reflexivity|].
    apply (@no_trade_through_bar_200 ma_crossover "X" example_bars "out"
             example_run).
    + vm_compute. reflexivity.
    + lia.
    + exact E.
  - vm_compute in E. discriminate.
Defined.

Lemma broker_next_cash (b : Broker) (popen : Q) :
  0 <= cash b -> 0 <= popen -> 0 <= cash (broker_next b popen).
Proof.
  intros Hc Hp. unfold broker_next, stake.
  change (inject_Z 1) with 1.
  destruct (submitted b) as [[[|] created]|]; [| |exact Hc].
  - destruct (Qle_bool 0 (cash b - 1 * created)) eqn:E1;
      destruct (Qle_bool 0 (cash b - 1 * popen)) eqn:E2;
      cbn [andb cash]; try exact Hc.
    apply Qle_bool_iff in E2. exact E2.
  - destruct (Qle_bool 0 (cash b + 1 * created)); cbn [cash]; lra.
Qed.

Lemma run_bars_cash (minp : nat) (cross : list (option Q))
    (bars : list Bar) :
  nonneg_prices bars ->
  forall i b k e,
  0 <= cash b ->
  nth_error (run_bars minp cross i bars b) k = Some e ->
  0 <= cash (fst e).
Proof.
  induction 1 as [|bar rest [Ho _] _ IH]; intros i b k e Hc;
    cbn [run_bars].
  - destruct k; discriminate.
  - destruct k as [|k]; cbn [nth_error].
    + intros [= <-]. cbn [fst]. apply broker_next_cash; assumption.
    + apply IH. cbn [submit cash]. apply broker_next_cash; assumption.
Qed.

(** X13.  When no bar opens below zero the cash never becomes negative: the
    broker rejects a purchase the cash cannot pay, and a sale only adds
    to the cash. *)
Theorem cash_never_negative (strategy : StrategyChoice)
    (symbol : string) (data : list Bar) (output : string)
    (strat : Strategy) :
  nonneg_prices data ->
  backtest strategy symbol data output = Ok strat ->
  forall i b o, nth_error (history strat) i = Some (b, o) -> 0 <= cash b.
Proof.
  intros Hp Hrun i b o Hnth.
  rewrite (history_of_run _ _ _ _ Hrun) in Hnth.
  apply (@run_bars_cash 201 (array (crossover strat)) data Hp 0
           {| cash := initial_cash; position := 0; submitted := None |}
           i (b, o)); [|exact Hnth].
  cbn [cash]. unfold initial_cash. lra.
Qed.

Lemma example_bars_nonneg : nonneg_prices example_bars.
Proof.
  unfold nonneg_prices, example_bars.
  repeat (apply Forall_app; split);
    try (apply Forall_forall; intros bar Hb; apply repeat_spec in Hb;
         subst bar; cbn; lra).
  repeat constructor; cbn; lra.
Qed.

Lemma cash_never_negative_witness :
  exists b o,
    nth_error (history example_run) 201 = Some (b, o) /\ 0 <= cash b.
Proof.
  destruct (nth_error (history example_run) 201) as [[b o]|] eqn:E.
  - exists b, o. split; [reflexivity|].
    apply (@cash_never_negative ma_crossover "X" example_bars "out"
             example_run example_bars_nonneg) with (i := 201%nat) (o := o).
    + vm_compute. reflexivity.
    + exact E.
  - vm_compute in E. discriminate.
Defined.

(* ================================================================== *)
(** * The drawdown entries of the summary *)
(* ================================================================== *)

Lemma pymax_l (a b : Q) : a <= DrawDown.pymax a b.
Proof.
  unfold DrawDown.pymax. destruct (b ?= a) eqn:C; try lra.
  apply Qgt_alt in C. lra.
Qed.

Lemma pymax_r (a b : Q) : b <= DrawDown.pymax a b.
Proof.
  unfold DrawDown.pymax. destruct (b ?= a) eqn:C;
    [apply Qeq_alt in C | apply Qlt_alt in C | ]; lra.
Qed.

Lemma pymax_le (a b c : Q) : a <= c -> b <= c -> DrawDown.pymax a b <= c.
Proof. intros Ha Hb. unfold DrawDown.pymax. destruct (b ?= a); assumption. Qed.

Lemma drawdown_step_bounds (peak v : Q) :
  0 < peak -> 0 <= v -> v <= peak ->
  0 <= 100 * (peak - v) / peak /\ 100 * (peak - v) / peak <= 100.
Proof.
  intros Hp Hv Hle.
  split; [apply Qle_shift_div_l | apply Qle_shift_div_r]; lra.
Qed.

(** one bar keeps the results within their bounds *)
Lemma drawdown_next_inv (st : DrawDown.State) (n : Z) (v : Q) :
  drawdown_inv st n -> 0 <= v ->
  exists st', DrawDown.next st v = Some st' /\ drawdown_inv st' (n + 1).
Proof.
  intros [(m & Hm & Hmpos) Hb] Hv.
  destruct Hb as (B1 & B2 & B3 & B4 & B5 & B6 & B7 & B8).
  unfold DrawDown.next. rewrite Hm.
  set (peak := DrawDown.pymax m v).
  assert (Hpm : m <= peak) by apply pymax_l.
  assert (Hpv : v <= peak) by apply pymax_r.
  assert (Hpeak : 0 < peak) by lra.
  assert (E : Qeq_bool peak 0 = false).
  { destruct (Qeq_bool peak 0) eqn:E; [|reflexivity].
    apply Qeq_bool_iff in E. lra. }
  rewrite E.
  destruct (drawdown_step_bounds Hpeak Hv Hpv) as [D1 D2].
  eexists. split; [reflexivity|]. split.
  - exists peak. split; [reflexivity | exact Hpeak].
  - unfold drawdown_bounds.
    cbn [DrawDown.rets DrawDown.drawdown DrawDown.moneydown DrawDown.len
         DrawDown.max DrawDown.max_drawdown DrawDown.max_moneydown
         DrawDown.max_len].
    split; [exact D1|]. split; [apply pymax_r|].
    split; [apply pymax_le; assumption|].
    split; [lra|]. split; [apply pymax_r|].
    destruct (Qeq_bool (100 * (peak - v) / peak) 0); repeat split; lia.
Qed.

(** the first bar, whose value is positive, sets the peak *)
Lemma drawdown_first (v : Q) :
  0 < v ->
  exists st',
    DrawDown.next DrawDown.create_analysis v = Some st' /\
    drawdown_inv st' 1.
Proof.
  intros Hv. unfold DrawDown.next, DrawDown.create_analysis.
  cbn [DrawDown._maxvalue DrawDown.rets].
  assert (E : Qeq_bool v 0 = false).
  { destruct (Qeq_bool v 0) eqn:E; [|reflexivity].
    apply Qeq_bool_iff in E. lra. }
  rewrite E.
  destruct (@drawdown_step_bounds v v Hv ltac:(lra) ltac:(lra)) as [D1 D2].
  eexists. split; [reflexivity|]. split.
  - exists v. split; [reflexivity | exact Hv].
  - unfold drawdown_bounds.
    cbn [DrawDown.rets DrawDown.drawdown DrawDown.moneydown DrawDown.len
         DrawDown.max DrawDown.max_drawdown DrawDown.max_moneydown
         DrawDown.max_len].
    split; [exact D1|]. split; [apply pymax_r|].
    split; [apply pymax_le; lra|].
    split; [lra|]. split; [apply pymax_r|].
    destruct (Qeq_bool (100 * (v - v) / v) 0); repeat split; lia.
Qed.

Lemma drawdown_run_inv (values : list Q) :
  Forall (fun v => 0 <= v) values ->
  forall st n, drawdown_inv st n ->
  exists st',
    DrawDown.run st values = Some st' /\
    drawdown_inv st' (n + Z.of_nat (length values)).
Proof.
  induction 1 as [|v values Hv _ IH]; intros st n Hinv.
  - exists st. split; [reflexivity|].
    cbn [length]. now rewrite Z.add_0_r.
  - destruct (drawdown_next_inv Hinv Hv) as (st1 & H1 & Hinv1).
    destruct (IH st1 (n + 1)%Z Hinv1) as (st' & Hrun & Hinv').
    exists st'. cbn [DrawDown.run]. rewrite H1. split; [exact Hrun|].
    cbn [length]. rewrite Nat2Z.inj_succ.
    replace (n + Z.succ (Z.of_nat (length values)))%Z
      with (n + 1 + Z.of_nat (length values))%Z by lia.
    exact Hinv'.
Qed.

(** the values of the bars of a run, read off bar by bar *)
Lemma Forall_map2 {A B C : Type} (P : C -> Prop) (f : A -> B -> C)
    (l : list A) :
  forall m : list B,
  (forall i a b, nth_error l i = Some a -> nth_error m i = Some b ->
                 P (f a b)) ->
  Forall P (map2 f l m).
Proof.
  induction l as [|a l IH]; intros [|b m] H; cbn [map2]; try constructor.
  - apply (H 0%nat a b); reflexivity.
  - apply IH. intros i a' b' Ha Hb. apply (H (S i) a' b'); assumption.
Qed.

Lemma map2_length {A B C : Type} (f : A -> B -> C) (l : list A) :
  forall m : list B, length l = length m -> length (map2 f l m) = length l.
Proof.
  induction l as [|a l IH]; intros [|b m] H; simpl in *; try discriminate;
    [reflexivity|].
  f_equal. apply IH. congruence.
Qed.

Lemma position_value_nonneg (b : Broker) (c : Q) :
  (position b = 0 \/ position b = 1)%Z -> 0 <= c ->
  0 <= inject_Z (position b) * c.
Proof.
  intros [->| ->] Hc; [change (inject_Z 0) with 0 | change (inject_Z 1) with 1];
    lra.
Qed.

Lemma run_values_nonneg (strategy : StrategyChoice) (symbol : string)
    (data : list Bar) (output : string) (strat : Strategy) :
  nonneg_prices data ->
  backtest strategy symbol data output = Ok strat ->
  Forall (fun v => 0 <= v) (run_values data strat).
Proof.
  intros Hp Hrun. unfold run_values.
  pose proof (history_of_run _ _ _ _ Hrun) as Hh.
  apply Forall_map2. intros i bar e Hbar He. rewrite Hh in He.
  set (b0 := {| cash := initial_cash; position := 0; submitted := None |})
    in He.
  assert (Hb0 : account_ok b0) by (split; [left; reflexivity | exact I]).
  assert (Hc : 0 <= cash (fst e)).
  { apply (@run_bars_cash 201 (array (crossover strat)) data Hp 0 b0 i e);
      [cbn; unfold initial_cash; lra | exact He]. }
  destruct (@run_bars_ok 201 (array (crossover strat)) data 0 b0 i e Hb0 He)
    as [Hpos _].
  assert (Hcl : 0 <= close bar).
  { unfold nonneg_prices in Hp. rewrite Forall_forall in Hp.
    apply (Hp bar). apply (nth_error_In _ _ Hbar). }
  unfold portfolio_value.
  pose proof (position_value_nonneg (fst e) Hpos Hcl). lra.
Qed.

Lemma run_values_head (strategy : StrategyChoice) (symbol : string)
    (data : list Bar) (output : string) (strat : Strategy) :
  backtest strategy symbol data output = Ok strat ->
  exists v rest, run_values data strat = v :: rest /\ v == 100000 /\
                 length (run_values data strat) = length data.
Proof.
  intros Hrun. destruct (backtest_inv _ _ _ _ Hrun) as (Hlen & _).
  pose proof (history_of_run _ _ _ _ Hrun) as Hh.
  assert (Hl : length (run_values data strat) = length data).
  { unfold run_values. apply map2_length. rewrite Hh.
    now rewrite run_bars_length. }
  unfold run_values in *. rewrite Hh in *.
  destruct data as [|bar rest]; [simpl in Hlen; lia|].
  cbn [run_bars map2 fst]. eexists. eexists.
  split; [reflexivity|]. split; [|exact Hl].
  unfold portfolio_value, broker_next, initial_cash. cbn. ring.
Qed.

(** X14.  On a series without negative prices the drawdown analysis of a
    completed run never fails: the peak it divides by is positive.  The
    maximum drawdown it reports is a percentage between 0 and 100, and
    the drawdown period it reports, which is the length of the drawdown
    still open on the last bar, is at most the longest drawdown length,
    itself at most the number of bars. *)
Theorem drawdown_summary_bounds (strategy : StrategyChoice)
    (symbol : string) (data : list Bar) (output : string)
    (strat : Strategy) :
  nonneg_prices data ->
  backtest strategy symbol data output = Ok strat ->
  exists a,
    drawdown_analysis data strat = Some a /\
    let s := drawdown_summary a in
    0 <= DrawDown.max_drawdown (Max_Drawdown s) /\
    DrawDown.max_drawdown (Max_Drawdown s) <= 100 /\
    0 <= DrawDown.max_moneydown (Max_Drawdown s) /\
    (0 <= Drawdown_Period s)%Z /\
    (Drawdown_Period s <= DrawDown.max_len (Max_Drawdown s))%Z /\
    (DrawDown.max_len (Max_Drawdown s) <= Z.of_nat (length data))%Z /\
    0 <= DrawDown.drawdown a /\
    DrawDown.drawdown a <= DrawDown.max_drawdown (Max_Drawdown s).
Proof.
  intros Hp Hrun.
  pose proof (@run_values_nonneg strategy symbol data output strat Hp Hrun)
    as Hv.
  destruct (@run_values_head strategy symbol data output strat Hrun)
    as (v & rest & Hvals & Hv0 & Hlen).
  unfold drawdown_analysis. rewrite Hvals in *.
  inversion Hv as [|? ? _ Hrest]; subst.
  destruct (@drawdown_first v ltac:(lra)) as (st1 & H1 & Hinv1).
  destruct (drawdown_run_inv Hrest Hinv1) as (st' & Hr & Hinv').
  cbn [DrawDown.run]. rewrite H1, Hr. cbn [option_map].
  exists (DrawDown.rets st'). split; [reflexivity|].
  destruct Hinv' as [_ (B1 & B2 & B3 & B4 & B5 & B6 & B7 & B8)].
  cbn [length] in Hlen.
  cbn [drawdown_summary Max_Drawdown Drawdown_Period].
  repeat split; try assumption; try lra; lia.
Qed.

Lemma drawdown_summary_bounds_witness :
  exists a,
    drawdown_analysis example_bars example_run = Some a /\
    let s := drawdown_summary a in
    0 <= DrawDown.max_drawdown (Max_Drawdown s) /\
    DrawDown.max_drawdown (Max_Drawdown s) <= 100 /\
    0 <= DrawDown.max_moneydown (Max_Drawdown s) /\
    (0 <= Drawdown_Period s)%Z /\
    (Drawdown_Period s <= DrawDown.max_len (Max_Drawdown s))%Z /\
    (DrawDown.max_len (Max_Drawdown s) <= Z.of_nat (length example_bars))%Z /\
    0 <= DrawDown.drawdown a /\
    DrawDown.drawdown a <= DrawDown.max_drawdown (Max_Drawdown s).
Proof.
  apply (@drawdown_summary_bounds ma_crossover "X" example_bars "out"
           example_run).
  - exact example_bars_nonneg.
  - vm_compute. reflexivity.
Defined.

(* ================================================================== *)
(** * Running the command on its own output; the order of the rows *)
(* ================================================================== *)

Lemma assign_same_value (name : string) (s : Series)
    (cols : list (string * Series)) :
  lookup name cols = Some s -> assign name s cols = cols.
Proof.
  induction cols as [|[n c] cols IH]; simpl; [discriminate|].
  destruct (String.eqb n name) eqn:E.
  - intros [= ->]. reflexivity.
  - intros H. now rewrite IH.
Qed.

Lemma setitem_same_value (df : DataFrame) (name : string) (s : Series) :
  getitem df name = Ok s -> setitem df name s = df.
Proof.
  unfold getitem, setitem.
  destruct (lookup name (columns df)) as [s'|] eqn:E; [|discriminate].
  intros [= ->]. rewrite (assign_same_value _ _ E). now destruct df.
Qed.

(** what the EMA and MACD branches build on a complete table *)
Lemma smoothing_merged (t : IndicatorType) (period : Z) (df : DataFrame)
    (cs : list Q) :
  complete df ->
  getitem df "Close" = Ok (map Fin cs) ->
  (t = EMA /\ (1 <= period)%Z) \/ t = MACD ->
  exists merged,
    indicator_columns t period df = Ok merged /\
    index merged = index df /\
    complete merged /\
    indicator_columns t period merged = Ok merged.
Proof.
  intros Hc Hclose Ht.
  assert (Hcs : length cs = length (index df)).
  { unfold getitem in Hclose.
    destruct (lookup "Close" (columns df)) as [c|] eqn:E; [|discriminate].
    injection Hclose as ->. apply lookup_In in E.
    destruct (Hc _ _ E) as [Hlen _]. now rewrite length_map in Hlen. }
  destruct Ht as [[-> Hs]| ->]; unfold indicator_columns;
    rewrite Hclose; cbn [bind].
  - destruct (ewm_mean_finite cs Hs) as (E & HE & HF & _).
    rewrite HE. cbn [bind]. eexists. split; [reflexivity|].
    split; [reflexivity|]. split.
    + apply complete_setitem; [exact Hc | | apply In_map_Fin].
      rewrite length_map, (Forall2_length HF), ema_spec_length. exact Hcs.
    + rewrite getitem_setitem_other by discriminate. rewrite Hclose.
      cbn [bind]. rewrite HE. cbn [bind]. f_equal.
      apply setitem_same_value, getitem_setitem_same.
  - unfold ema12, ema26.
    destruct (@ewm_mean_finite 12 cs ltac:(lia)) as (E12 & H12 & HF12 & _).
    destruct (@ewm_mean_finite 26 cs ltac:(lia)) as (E26 & H26 & HF26 & _).
    rewrite H12, H26. cbn [bind]. rewrite getitem_setitem_same.
    cbn [bind]. rewrite sub_fin.
    destruct (@ewm_mean_finite 9 (map2 Qminus E12 E26) ltac:(lia))
      as (G & HG & HFG & _).
    rewrite HG. cbn [bind].
    set (M := map Fin (map2 Qminus E12 E26)).
    set (merged := setitem (setitem df "MACD" M) "Signal" (map Fin G)).
    exists merged. split; [reflexivity|]. split; [reflexivity|].
    assert (L12 : length E12 = length cs)
      by now rewrite (Forall2_length HF12), ema_spec_length.
    assert (L26 : length E26 = length cs)
      by now rewrite (Forall2_length HF26), ema_spec_length.
    assert (LM : length (map2 Qminus E12 E26) = length cs)
      by (rewrite map2_Qminus_length; congruence).
    assert (HgM : getitem merged "MACD" = Ok M).
    { unfold merged. rewrite getitem_setitem_other by discriminate.
      apply getitem_setitem_same. }
    assert (HgS : getitem merged "Signal" = Ok (map Fin G))
      by apply getitem_setitem_same.
    split.
    + unfold merged, M.
      apply complete_setitem; [apply complete_setitem | |];
        try apply In_map_Fin; try exact Hc.
      * rewrite length_map. congruence.
      * cbn [setitem index]. rewrite length_map.
        rewrite (Forall2_length HFG), ema_spec_length. congruence.
    + assert (HgC : getitem merged "Close" = Ok (map Fin cs)).
      { unfold merged. rewrite !getitem_setitem_other by discriminate.
        exact Hclose. }
      rewrite HgC. cbn [bind]. rewrite H12, H26. cbn [bind].
      rewrite sub_fin. fold M.
      rewrite (setitem_same_value _ _ HgM), HgM. cbn [bind].
      unfold M. rewrite HG. cbn [bind].
      now rewrite (setitem_same_value _ _ HgS).
Qed.

(** X15.  On a complete table with finite closes, running the EMA command (span
    at least 1) or the MACD command on its own output gives that output
    again: the columns are recomputed to the same values and overwritten
    in place, none is added, and no row is lost. *)
Theorem smoothing_is_idempotent (t : IndicatorType) (symbol : string)
    (period : Z) (df out : DataFrame) (cs : list Q) :
  complete df ->
  getitem df "Close" = Ok (map Fin cs) ->
  (t = EMA /\ (1 <= period)%Z) \/ t = MACD ->
  indicator t symbol period df = Ok out ->
  indicator t symbol period out = Ok out.
Proof.
  intros Hc Hclose Ht Hrun.
  destruct (@smoothing_merged t period df cs Hc Hclose Ht)
    as (merged & Hm & _ & Hcm & Hagain).
  unfold indicator in Hrun. rewrite Hm in Hrun. cbn [bind] in Hrun.
  rewrite dropna_complete in Hrun by exact Hcm. injection Hrun as <-.
  unfold indicator. rewrite Hagain. cbn [bind].
  now rewrite dropna_complete.
Qed.

Lemma smoothing_is_idempotent_witness :
  indicator EMA "X" 2
    {| index := [1; 2]%Z;
       columns := [("Close"%string, [Fin 100; Fin 102]);
                   ("EMA"%string, [Fin 100; Fin (8208 # 81)])] |}
  = Ok {| index := [1; 2]%Z;
          columns := [("Close"%string, [Fin 100; Fin 102]);
                      ("EMA"%string, [Fin 100; Fin (8208 # 81)])] |}.
Proof.
  apply (@smoothing_is_idempotent EMA "X" 2
           {| index := [1; 2]%Z;
              columns := [("Close"%string, map Fin [100; 102])] |}
           {| index := [1; 2]%Z;
              columns := [("Close"%string, [Fin 100; Fin 102]);
                          ("EMA"%string, [Fin 100; Fin (8208 # 81)])] |}
           [100; 102]).
  - intros name col [[= <- <-]|[]]. split; [reflexivity|].
    intros x [<-|[<-|[]]]; discriminate.
  - reflexivity.
  - left. split; [reflexivity | lia].
  - vm_compute. reflexivity.
Defined.

(** ** The emitted rows keep the order of the input *)

Lemma seq_sorted (len : nat) :
  forall start, StronglySorted lt (seq start len).
Proof.
  induction len as [|len IH]; intros start; cbn [seq]; constructor.
  - apply IH.
  - apply Forall_forall. intros x Hx. apply in_seq in Hx. lia.
Qed.

Lemma filter_sorted {A : Type} (R : A -> A -> Prop) (f : A -> bool)
    (l : list A) :
  StronglySorted R l -> StronglySorted R (filter f l).
Proof.
  induction 1 as [|a l Hs IH Ha]; cbn [filter]; [constructor|].
  destruct (f a); [|exact IH]. constructor; [exact IH|].
  rewrite Forall_forall in *. intros x Hx. apply filter_In in Hx.
  apply Ha, Hx.
Qed.

Lemma sorted_nth (l : list Z) :
  StronglySorted Z.lt l ->
  forall i j, (i < j)%nat -> (j < length l)%nat ->
  (nth i l 0 < nth j l 0)%Z.
Proof.
  induction 1 as [|a l Hs IH Ha]; intros i j Hij Hj; simpl in Hj; [lia|].
  destruct j as [|j]; [lia|]. destruct i as [|i]; cbn [nth].
  - rewrite Forall_forall in Ha. apply Ha, nth_In. lia.
  - apply IH; lia.
Qed.

Lemma take_sorted (idx : list Z) (rows : list nat) :
  StronglySorted Z.lt idx ->
  StronglySorted lt rows ->
  Forall (fun r => (r < length idx)%nat) rows ->
  StronglySorted Z.lt (take 0%Z rows idx).
Proof.
  intros Hidx Hrows. unfold take.
  induction Hrows as [|r rows Hs IH Hr]; intros Hb; cbn [map];
    constructor.
  - apply IH. now inversion Hb.
  - inversion Hb as [|? ? _ Hb']; subst.
    apply Forall_map. rewrite Forall_forall in *. intros x Hx.
    apply sorted_nth; [exact Hidx | apply Hr, Hx | apply Hb', Hx].
Qed.

(** X16.  The command never reorders rows: when the dates of the input are in
    ascending order without repetition, so are the dates of the emitted
    table, whatever the indicator. *)
Theorem emitted_dates_stay_ascending (t : IndicatorType) (symbol : string)
    (period : Z) (df out : DataFrame) :
  StronglySorted Z.lt (index df) ->
  indicator t symbol period df = Ok out ->
  StronglySorted Z.lt (index out).
Proof.
  intros Hs. unfold indicator.
  destruct (indicator_columns t period df) as [merged|e] eqn:Hm;
    [|discriminate].
  cbn [bind]. intros [= <-].
  destruct (indicator_columns_inv _ _ _ Hm) as (Hidx & _).
  unfold dropna, kept_rows. cbn [index]. rewrite Hidx.
  apply take_sorted; [exact Hs | apply filter_sorted, seq_sorted|].
  apply Forall_forall. intros r Hr. apply filter_In in Hr.
  destruct Hr as [Hr _]. apply in_seq in Hr. lia.
Qed.

Lemma emitted_dates_stay_ascending_witness :
  StronglySorted Z.lt
    (index
       {| index := [2; 3]%Z;
          columns := [("Close"%string, [Fin 102; Fin 104]);
                      ("SMA"%string, [Fin (202 # 2); Fin (206 # 2)])] |}).
Proof.
  apply (@emitted_dates_stay_ascending SMA "X" 2
           {| index := [1; 2; 3]%Z;
              columns := [("Close"%string, map Fin [100; 102; 104])] |}).
  - repeat constructor.
  - vm_compute. reflexivity.
Defined.

(* ================================================================== *)
(** * The crossing rule *)
(* ================================================================== *)

Lemma nzd_once_nth (rest : list (option Q)) :
  forall (prev : option Q) (k : nat),
  (k < length rest)%nat ->
  truthy (nth k rest None) = true ->
  nth k (nzd_once prev rest) None = nth k rest None.
Proof.
  induction rest as [|x rest IH]; intros prev k Hk Ht; simpl in Hk; [lia|].
  destruct k as [|k]; cbn [nzd_once nth] in *.
  - now rewrite Ht.
  - apply IH; [lia | exact Ht].
Qed.

(** where the two lines differ, the non-zero difference is their
    difference *)
Lemma nzd_array_at (minp : nat) (d0 d1 : list (option Q)) (j : nat) :
  (minp - 1 <= j)%nat ->
  (j < length (map2 osub d0 d1))%nat ->
  truthy (nth j (map2 osub d0 d1) None) = true ->
  at_ (nzd_array minp d0 d1) j = nth j (map2 osub d0 d1) None.
Proof.
  intros Hlo Hj Ht. unfold at_, nzd_array.
  set (d := map2 osub d0 d1) in *.
  rewrite app_nth2 by (rewrite repeat_length; lia).
  rewrite repeat_length.
  assert (Hsk : forall k, nth k (skipn (minp - 1) d) None
                          = nth (minp - 1 + k) d None)
    by (intros k; apply nth_skipn).
  assert (Hlen : length (skipn (minp - 1) d) = (length d - (minp - 1))%nat)
    by apply length_skipn.
  destruct (skipn (minp - 1) d) as [|seed rest] eqn:E.
  - simpl in Hlen. lia.
  - destruct (j - (minp - 1))%nat as [|k] eqn:Ek.
    + cbn [nth]. pose proof (Hsk 0%nat) as H0. cbn [nth] in H0.
      replace (minp - 1 + 0)%nat with j in H0 by lia. exact H0.
    + cbn [nth]. pose proof (Hsk (S k)) as Hk. cbn [nth] in Hk.
      replace (minp - 1 + S k)%nat with j in Hk by lia.
      rewrite <- Hk in Ht |- *. simpl in Hlen.
      apply nzd_once_nth; [lia | exact Ht].
Qed.

Lemma map2_osub_nth (d0 d1 : list (option Q)) (j : nat) :
  (j < length d0)%nat -> (j < length d1)%nat ->
  nth j (map2 osub d0 d1) None = osub (at_ d0 j) (at_ d1 j).
Proof.
  unfold at_. revert d1 j.
  induction d0 as [|x d0 IH]; intros [|y d1] j H0 H1; simpl in H0, H1;
    try lia.
  destruct j as [|j]; cbn [map2 nth]; [reflexivity|]. apply IH; lia.
Qed.

Lemma map2_osub_length (d0 d1 : list (option Q)) :
  length d0 = length d1 -> length (map2 osub d0 d1) = length d0.
Proof. apply map2_length. Qed.

Section CrossExact.

Variables data0 data1 : Line.

Let n := length (array data0).
Let mp := Nat.max (minperiod data0) (minperiod data1).
Let nzd := nzd_array mp (array data0) (array data1).

(** the flag of an upward (downward) crossing on bar [i]: the last
    non-zero difference before the bar is negative (positive) and the
    first line is above (below) the second on the bar *)
Lemma CrossBase_exact (crossup : bool) :
  (mp + 1 <= n)%nat ->
  exists l,
    CrossBase crossup data0 data1 = Ok l /\
    minperiod l = (mp + 1)%nat /\
    forall i, (mp <= i)%nat -> (i < n)%nat ->
      at_ (array l) i
      = of_bool ((if crossup
                  then olt (at_ nzd (i - 1)) (Some 0)
                  else ogt (at_ nzd (i - 1)) (Some 0))
                 && (if crossup
                     then ogt (at_ (array data0) i) (at_ (array data1) i)
                     else olt (at_ (array data0) i) (at_ (array data1) i))).
Proof.
  intros H. unfold CrossBase, NonZeroDifference. fold n. fold mp.
  replace (n <? mp)%nat with false by (symmetry; apply Nat.ltb_ge; lia).
  cbn [bind minperiod].
  rewrite (once_enough _ (n := n) (minp := (mp + 1)%nat)) by lia.
  cbn [bind fill minperiod].
  rewrite (once_enough _ (n := n) (minp := (mp + 1)%nat)) by lia.
  cbn [bind].
  rewrite (once_enough _ (n := n) (minp := mp)) by lia.
  cbn [bind fill minperiod].
  rewrite once_enough by lia.
  eexists. split; [reflexivity|].
  split; [cbn [fill minperiod]; lia|].
  intros i Hlo Hi. rewrite fill_at by exact Hi.
  replace (i <? Nat.max (mp + 1) mp - 1)%nat with false
    by (symmetry; apply Nat.ltb_ge; lia).
  cbn [array]. fold nzd.
  match goal with
  | |- of_bool (truthy (at_ ?a i) && truthy (at_ ?b i)) = _ =>
      change a with (array (fill n (mp + 1)
        (fun i => of_bool (if crossup
           then olt (at_ (array (fill n (mp + 1)
                  (fun i => at_ nzd (i - 1)))) i) (Some 0)
           else ogt (at_ (array (fill n (mp + 1)
                  (fun i => at_ nzd (i - 1)))) i) (Some 0)))));
      change b with (array (fill n mp
        (fun i => of_bool (if crossup
           then ogt (at_ (array data0) i) (at_ (array data1) i)
           else olt (at_ (array data0) i) (at_ (array data1) i)))))
  end.
  rewrite !fill_at by exact Hi.
  replace (i <? mp + 1 - 1)%nat with false
    by (symmetry; apply Nat.ltb_ge; lia).
  replace (i <? mp - 1)%nat with false
    by (symmetry; apply Nat.ltb_ge; lia).
  rewrite !truthy_of_bool. reflexivity.
Qed.

Lemma CrossOver_exact :
  (mp + 1 <= n)%nat ->
  exists l,
    CrossOver data0 data1 = Ok l /\
    forall i, (mp <= i)%nat -> (i < n)%nat ->
      at_ (array l) i
      = osub
          (of_bool (olt (at_ nzd (i - 1)) (Some 0)
                    && ogt (at_ (array data0) i) (at_ (array data1) i)))
          (of_bool (ogt (at_ nzd (i - 1)) (Some 0)
                    && olt (at_ (array data0) i) (at_ (array data1) i))).
Proof.
  intros H.
  destruct (CrossBase_exact true H) as (up & Hup & Hmu & Hau).
  destruct (CrossBase_exact false H) as (dn & Hdn & Hmd & Had).
  unfold CrossOver. rewrite Hup, Hdn. cbn [bind]. rewrite Hmu, Hmd.
  fold n. rewrite once_enough by lia.
  eexists. split; [reflexivity|].
  intros i Hlo Hi. rewrite fill_at by exact Hi.
  replace (i <? Nat.max (mp + 1) (mp + 1) - 1)%nat with false
    by (symmetry; apply Nat.ltb_ge; lia).
  rewrite (Hau i Hlo Hi), (Had i Hlo Hi). reflexivity.
Qed.

End CrossExact.

Lemma ogt_osub (a b : option Q) :
  ogt a b = true ->
  truthy (osub a b) = true /\
  olt (osub a b) (Some 0) = false /\ ogt (osub a b) (Some 0) = true.
Proof.
  destruct a as [x|], b as [y|]; cbn [ogt osub truthy olt]; try discriminate.
  destruct (x ?= y) eqn:C; try discriminate. intros _.
  apply Qgt_alt in C.
  assert (Hd : 0 < x - y) by lra.
  repeat split.
  - destruct (Qeq_bool (x - y) 0) eqn:E; [|reflexivity].
    apply Qeq_bool_iff in E. lra.
  - destruct (0 ?= x - y) eqn:C'; try reflexivity.
    apply Qgt_alt in C'. lra.
  - apply Qgt_alt in Hd. now rewrite Hd.
Qed.

Lemma olt_osub (a b : option Q) :
  olt a b = true ->
  truthy (osub a b) = true /\
  olt (osub a b) (Some 0) = true /\ ogt (osub a b) (Some 0) = false.
Proof.
  unfold olt.
  destruct a as [x|], b as [y|]; cbn [ogt osub truthy]; try discriminate.
  destruct (y ?= x) eqn:C; try discriminate. intros _.
  apply Qgt_alt in C.
  assert (Hd : x - y < 0) by lra.
  repeat split.
  - destruct (Qeq_bool (x - y) 0) eqn:E; [|reflexivity].
    apply Qeq_bool_iff in E. lra.
  - apply Qgt_alt in Hd. now rewrite Hd.
  - destruct (x - y ?= 0) eqn:C'; try reflexivity.
    apply Qgt_alt in C'. lra.
Qed.

Lemma ogt_olt_exclusive (a b : option Q) :
  ogt a b = true -> olt a b = false.
Proof.
  unfold olt. destruct a as [x|], b as [y|]; cbn [ogt]; try discriminate.
  destruct (x ?= y) eqn:C; try discriminate. intros _.
  apply Qgt_alt in C. destruct (y ?= x) eqn:C'; try reflexivity.
  apply Qgt_alt in C'. lra.
Qed.

(** X17.  The crossing rule of a completed run, on a bar [i] from bar 200 on.
    When the 50-bar average was below the 200-bar average on the
    previous bar and is above it on this bar, the crossover value is 1;
    in the mirrored case it is -1.  When it was already above on the
    previous bar the value is not positive, and when it was already
    below the value is not negative: a signal is not repeated while the
    averages keep their order. *)
Theorem crossing_rule (strategy : StrategyChoice) (symbol : string)
    (data : list Bar) (output : string) (strat : Strategy) (i : nat) :
  backtest strategy symbol data output = Ok strat ->
  (200 <= i)%nat -> (i < length data)%nat ->
  let s := at_ (array (short_ma strat)) in
  let l := at_ (array (long_ma strat)) in
  let x := at_ (array (crossover strat)) i in
  (olt (s (i - 1)%nat) (l (i - 1)%nat) = true -> ogt (s i) (l i) = true ->
   exists v, x = Some v /\ v == 1) /\
  (ogt (s (i - 1)%nat) (l (i - 1)%nat) = true -> olt (s i) (l i) = true ->
   exists v, x = Some v /\ v == -1) /\
  (ogt (s (i - 1)%nat) (l (i - 1)%nat) = true -> ogt x (Some 0) = false) /\
  (olt (s (i - 1)%nat) (l (i - 1)%nat) = true -> olt x (Some 0) = false).
Proof.
  intros Hrun Hlo Hi.
  destruct (backtest_inv _ _ _ _ Hrun) as (Hlen & strat0 & Hinit & ->).
  unfold cerebro_run. cbn [crossover short_ma long_ma].
  unfold init, params in Hinit. cbn [short_period long_period] in Hinit.
  destruct (@SimpleMovingAverage_enough (map close data) 50)
    as (sl & Hs & Hms & Hls & _); try (rewrite ?length_map; lia).
  destruct (@SimpleMovingAverage_enough (map close data) 200)
    as (ll & Hl & Hml & Hll & _); try (rewrite ?length_map; lia).
  rewrite Hs, Hl in Hinit. cbn [bind] in Hinit.
  rewrite length_map in Hls, Hll.
  destruct (@CrossOver_exact sl ll) as (c & Hc & Hg).
  { rewrite Hms, Hml, Hls. simpl. lia. }
  rewrite Hms, Hml, Hls in Hg. cbn [Nat.max] in Hg.
  rewrite Hc in Hinit. cbn [bind] in Hinit. injection Hinit as <-.
  cbn [crossover short_ma long_ma]. cbv zeta.
  rewrite (Hg i Hlo Hi).
  assert (Hd : nth (i - 1) (map2 osub (array sl) (array ll)) None
               = osub (at_ (array sl) (i - 1)) (at_ (array ll) (i - 1)))
    by (apply map2_osub_nth; lia).
  assert (Hnzd : truthy (osub (at_ (array sl) (i - 1))
                              (at_ (array ll) (i - 1))) = true ->
                 at_ (nzd_array 200 (array sl) (array ll)) (i - 1)
                 = osub (at_ (array sl) (i - 1)) (at_ (array ll) (i - 1))).
  { intros Ht. rewrite <- Hd. apply nzd_array_at.
    - lia.
    - rewrite map2_osub_length by congruence. lia.
    - rewrite Hd. exact Ht. }
  repeat split.
  - intros Hprev Hnow.
    destruct (olt_osub _ _ Hprev) as (Ht & Hl1 & Hg1).
    rewrite (Hnzd Ht), Hl1, Hg1, Hnow. cbn [andb of_bool osub].
    eexists. split; [reflexivity | ring].
  - intros Hprev Hnow.
    destruct (ogt_osub _ _ Hprev) as (Ht & Hl1 & Hg1).
    rewrite (Hnzd Ht), Hl1, Hg1, Hnow.
    assert (Hno : ogt (at_ (array sl) i) (at_ (array ll) i) = false).
    { destruct (ogt (at_ (array sl) i) (at_ (array ll) i)) eqn:E;
        [|reflexivity].
      apply ogt_olt_exclusive in E. congruence. }
    cbn [andb of_bool osub]. eexists. split; [reflexivity | ring].
  - intros Hprev.
    destruct (ogt_osub _ _ Hprev) as (Ht & Hl1 & Hg1).
    rewrite (Hnzd Ht), Hl1. cbn [andb].
    destruct (_ && _); reflexivity.
  - intros Hprev.
    destruct (olt_osub _ _ Hprev) as (Ht & Hl1 & Hg1).
    rewrite (Hnzd Ht), Hg1. cbn [andb].
    destruct (_ && _); reflexivity.
Qed.

Lemma crossing_rule_witness :
  let s := at_ (array (short_ma example_run)) in
  let l := at_ (array (long_ma example_run)) in
  let x := at_ (array (crossover example_run)) 200 in
  (olt (s 199%nat) (l 199%nat) = true -> ogt (s 200%nat) (l 200%nat) = true ->
   exists v, x = Some v /\ v == 1) /\
  (ogt (s 199%nat) (l 199%nat) = true -> olt (s 200%nat) (l 200%nat) = true ->
   exists v, x = Some v /\ v == -1) /\
  (ogt (s 199%nat) (l 199%nat) = true -> ogt x (Some 0) = false) /\
  (olt (s 199%nat) (l 199%nat) = true -> olt x (Some 0) = false).
Proof.
  apply (@crossing_rule ma_crossover "X" example_bars "out" example_run 200).
  - vm_compute. reflexivity.
  - lia.
  - vm_compute. lia.
Defined.
